(** * Medium article search API: the loader, the scorer and the ranker

    A shallow embedding of [api.py].  Python strings are modelled as
    [string] (a sequence of 8-bit characters), Python's dynamically typed
    values as [pyval], dictionaries as [gmap string pyval], sets of words as
    [gset string], exceptions as the [Raise] case of [result] and integers
    as [Z].

    Two idealisations.  The model covers ASCII text: its letters, digits and
    white space are the ASCII ones, and a character above 127 counts as
    neither.  Scores, which Python computes in binary floating point, are
    exact rationals [Q], compared up to [Qeq]. *)

From Stdlib Require Import ZArith QArith Qminmax Qround String Ascii List Lia Lqa Sorted.
From stdpp Require Import gmap strings list.

Local Open Scope Z_scope.
Local Open Scope string_scope.

(** ** Python values, exceptions and dictionaries *)

Inductive exn :=
| TypeError | ValueError | AttributeError
| OSError | UnicodeDecodeError | CsvError.

Inductive result (A : Type) :=
| Ok (a : A)
| Raise (e : exn).
Arguments Ok {A} a.
Arguments Raise {A} e.

#[global] Instance result_ret : MRet result := λ A a, Ok a.
#[global] Instance result_bind : MBind result := λ A B f m,
  match m with
  | Ok a => f a
  | Raise e => Raise e
  end.

(** The values a CSV row or a JSON body can hold: text, an integer, or
    [None] (what [csv.DictReader] stores for a column a short row lacks). *)
Inductive pyval :=
| PStr (s : string)
| PInt (z : Z)
| PNone.

#[global] Instance pyval_eq_dec : EqDecision pyval.
Proof. solve_decision. Defined.

(** [d.get(k, dflt)] *)
Definition dict_get (d : gmap string pyval) (k : string) (dflt : pyval) : pyval :=
  default dflt (d !! k).

(** Truth value of an object, as [if v], [not v] and [v or w] test it. *)
Definition truthy (v : pyval) : bool :=
  match v with
  | PStr s => negb (String.eqb s "")
  | PInt z => negb (z =? 0)%Z
  | PNone => false
  end.

(** [v or w] *)
Definition py_or (v w : pyval) : pyval := if truthy v then v else w.

(** [v + w]: concatenation of two strings, sum of two integers, and a
    [TypeError] for every other pair. *)
Definition py_add (v w : pyval) : result pyval :=
  match v, w with
  | PStr a, PStr b => Ok (PStr (a +:+ b))
  | PInt a, PInt b => Ok (PInt (a + b))
  | _, _ => Raise TypeError
  end.

(** ** Characters and strings *)

Definition in_range (lo hi : nat) (c : ascii) : bool :=
  let n := nat_of_ascii c in ((lo <=? n) && (n <=? hi))%nat.

Definition is_upper (c : ascii) : bool := in_range 65 90 c.
Definition is_lower (c : ascii) : bool := in_range 97 122 c.
Definition is_digit (c : ascii) : bool := in_range 48 57 c.

(** The class [[a-zA-Z]] of the pattern. *)
Definition is_alpha (c : ascii) : bool := is_lower c || is_upper c.

(** The class [\w] that the anchors [\b] look at: letters, digits and the
    underscore. *)
Definition is_word (c : ascii) : bool :=
  is_alpha c || is_digit c || Ascii.eqb c "_".

(** White space as [str.strip()] and [int()] see it. *)
Definition is_space (c : ascii) : bool :=
  in_range 9 13 c || in_range 28 31 c || Ascii.eqb c " ".

Definition lower_char (c : ascii) : ascii :=
  if is_upper c then ascii_of_nat (nat_of_ascii c + 32) else c.

(** [s.lower()] *)
Fixpoint lower (s : string) : string :=
  match s with
  | EmptyString => EmptyString
  | String c s' => String (lower_char c) (lower s')
  end.

(** [v.lower()] on a dynamically typed value. *)
Definition py_lower (v : pyval) : result string :=
  match v with
  | PStr s => Ok (lower s)
  | _ => Raise AttributeError
  end.

Fixpoint drop_spaces (l : list ascii) : list ascii :=
  match l with
  | c :: l' => if is_space c then drop_spaces l' else l
  | [] => []
  end.

Definition strip_chars (l : list ascii) : list ascii :=
  rev (drop_spaces (rev (drop_spaces l))).

(** [s.strip()] *)
Definition strip (s : string) : string :=
  string_of_list_ascii (strip_chars (list_ascii_of_string s)).

Fixpoint starts_with (w l : list ascii) : bool :=
  match w, l with
  | [], _ => true
  | _ :: _, [] => false
  | a :: w', b :: l' => Ascii.eqb a b && starts_with w' l'
  end.

Fixpoint occurs_in (w l : list ascii) : bool :=
  starts_with w l ||
  match l with
  | [] => false
  | _ :: l' => occurs_in w l'
  end.

(** [w in s] for two strings: [w] occurs somewhere inside [s]. *)
Definition str_contains (s w : string) : bool :=
  occurs_in (list_ascii_of_string w) (list_ascii_of_string s).

(** ** [int(v)] *)

Definition digit_value (c : ascii) : Z := Z.of_nat (nat_of_ascii c) - 48.

(** The digits of a decimal literal; single underscores may separate
    digits.  [prev] tells whether the previous character was a digit. *)
Fixpoint digits_value (acc : Z) (prev : bool) (l : list ascii) : option Z :=
  match l with
  | [] => if prev then Some acc else None
  | c :: l' =>
      if is_digit c then digits_value (acc * 10 + digit_value c) true l'
      else if Ascii.eqb c "_" && prev then digits_value acc false l'
      else None
  end.

(** [int(s)] for a string: optional white space around an optional sign and
    a decimal literal. *)
Definition int_of_str (s : string) : option Z :=
  match strip_chars (list_ascii_of_string s) with
  | "+"%char :: l => digits_value 0 false l
  | "-"%char :: l => Z.opp <$> digits_value 0 false l
  | l => digits_value 0 false l
  end.

Definition py_int (v : pyval) : result Z :=
  match v with
  | PInt z => Ok z
  | PStr s => match int_of_str s with
              | Some z => Ok z
              | None => Raise ValueError
              end
  | PNone => Raise TypeError
  end.

(** ** [re.findall(r'\b[a-zA-Z]{3,}\b', s)] *)

Definition word_side (c : option ascii) : bool :=
  match c with
  | Some c => is_word c
  | None => false
  end.

(** [\b] holds between two neighbouring positions when exactly one of them
    is a word character; outside the string counts as a non-word. *)
Definition at_boundary (before after : option ascii) : bool :=
  xorb (word_side before) (word_side after).

(** How many leading characters the greedy [[a-zA-Z]{3,}] takes. *)
Fixpoint alpha_prefix (l : list ascii) : nat :=
  match l with
  | c :: l' => if is_alpha c then S (alpha_prefix l') else 0%nat
  | [] => 0%nat
  end.

(** Backtracking: the repetition gives characters back one at a time, from
    [k] down to the minimum of three, until the closing [\b] holds. *)
Fixpoint give_back (k : nat) (l : list ascii) : option nat :=
  match k with
  | O => None
  | S k' =>
      if (3 <=? k)%nat && at_boundary (nth_error l k') (nth_error l k)
      then Some k
      else give_back k' l
  end.

(** The pattern tried at one position: [before] is the character to the
    left, [l] the text to the right.  The result is the length matched. *)
Definition match_at (before : option ascii) (l : list ascii) : option nat :=
  if at_boundary before (nth_error l 0)
  then give_back (alpha_prefix l) l
  else None.

(** The left-to-right scan of [findall]: after a match the scan resumes
    behind it, otherwise one character further.  [fuel] bounds the number
    of positions tried. *)
Fixpoint scan (fuel : nat) (before : option ascii) (l : list ascii)
  : list (list ascii) :=
  match fuel with
  | O => []
  | S fuel' =>
      match match_at before l with
      | Some k =>
          firstn k l :: scan fuel' (nth_error l (k - 1)) (skipn k l)
      | None =>
          match l with
          | [] => []
          | c :: l' => scan fuel' (Some c) l'
          end
      end
  end.

Definition findall_words (s : string) : list string :=
  let l := list_ascii_of_string s in
  string_of_list_ascii <$> scan (S (length l)) None l.

(** [set(re.findall(..., s.lower()))], the word set of the scorer. *)
Definition word_set (s : string) : gset string :=
  list_to_set (findall_words (lower s)).

(** ** The loader *)

(** What iterating [csv.DictReader(csvfile)] does: it hands out the rows one
    by one and either reaches the end of the file or fails on the way with a
    decoding or format error. *)
Inductive reader :=
| EndOfFile
| NextRow (row : gmap string pyval) (rest : reader)
| ReadError (e : exn).

(** The data file as [load_articles] meets it. *)
Inductive csv_file :=
| Missing
| OpenError (e : exn)
| Opened (rd : reader).

(** [os.path.exists(CSV_FILE)] *)
Definition path_exists (f : csv_file) : bool :=
  match f with
  | Missing => false
  | _ => true
  end.

(** The inner [try]: [int(row.get('claps', 0) or 0)], with [ValueError] and
    [TypeError] handled by storing 0. *)
Definition convert_claps (row : gmap string pyval) : result (gmap string pyval) :=
  match py_int (py_or (dict_get row "claps" (PInt 0)) (PInt 0)) with
  | Ok z => Ok (<["claps" := PInt z]> row)
  | Raise ValueError | Raise TypeError => Ok (<["claps" := PInt 0]> row)
  | Raise e => Raise e
  end.

(** The [for] loop over the reader.  [articles] is the list the loop appends
    to; it is returned together with the exception that ended the loop, if
    one did. *)
Fixpoint read_rows (rd : reader) (articles : list (gmap string pyval))
  : list (gmap string pyval) * option exn :=
  match rd with
  | EndOfFile => (articles, None)
  | ReadError e => (articles, Some e)
  | NextRow row rest =>
      match convert_claps row with
      | Ok row' => read_rows rest (articles ++ [row'])
      | Raise e => (articles, Some e)
      end
  end.

(** The body of the outer [try], run on the list [articles]. *)
Definition try_body (f : csv_file) (articles : list (gmap string pyval))
  : list (gmap string pyval) * option exn :=
  match f with
  | Missing => (articles, Some OSError)
  | OpenError e => (articles, Some e)
  | Opened rd => read_rows rd articles
  end.

(** [load_articles()]: the [except Exception] clause prints the error; the
    function then returns [articles] as the body left it. *)
Definition load_articles (f : csv_file) : result (list (gmap string pyval)) :=
  let articles := [] in
  if negb (path_exists f) then Ok articles
  else
    let '(articles, _) := try_body f articles in
    Ok articles.

(** ** The scorer *)

Local Open Scope Q_scope.

Definition Q_of_nat (n : nat) : Q := inject_Z (Z.of_nat n).

(** [set(re.findall(..., s))] on an already lowered string. *)
Definition words_of (s : string) : gset string := list_to_set (findall_words s).

(** Lines 66 to 85: the score, once the two word sets and the lowered
    keyword text are known. *)
Definition overlap_score
    (input_words article_words : gset string) (article_keywords : string) : Q :=
  if (size input_words =? 0)%nat then 0
  else
    let intersection := size (input_words ∩ article_words) in
    let union := size (input_words ∪ article_words) in
    if (union =? 0)%nat then 0
    else
      let similarity := Q_of_nat intersection / Q_of_nat union in
      let similarity :=
        if negb (String.eqb article_keywords "") then
          let keyword_matches :=
            size (filter (λ word, Is_true (str_contains article_keywords word))
                         input_words) in
          if (0 <? keyword_matches)%nat
          then similarity + Q_of_nat keyword_matches * (1 # 10)
          else similarity
        else similarity in
      Qmin similarity 1.

(** The argument [keywords] is not used by the function. *)
Definition calculate_similarity
    (text : string) (keywords : pyval) (article : gmap string pyval) : result Q :=
  let input_lower := lower text in
  let input_words := words_of input_lower in
  t ← py_add (dict_get article "text" (PStr "")) (PStr " ");
  t ← py_add t (dict_get article "title" (PStr ""));
  t ← py_add t (PStr " ");
  t ← py_add t (dict_get article "subtitle" (PStr ""));
  t ← py_add t (PStr " ");
  t ← py_add t (dict_get article "keywords" (PStr ""));
  article_text ← py_lower t;
  article_keywords ← py_lower (dict_get article "keywords" (PStr ""));
  let article_words := words_of article_text in
  Ok (overlap_score input_words article_words article_keywords).

(** ** The ranker *)

Record scored := Scored {
  s_article : gmap string pyval;
  s_similarity : Q;
  s_claps : pyval
}.

Record summary := Summary {
  r_url : pyval;
  r_title : pyval;
  r_claps : pyval;
  r_similarity_score : Q
}.

(** The first loop: every article is scored, in order. *)
Fixpoint score_articles (input_text : string) (articles : list (gmap string pyval))
  : result (list scored) :=
  match articles with
  | [] => Ok []
  | article :: rest =>
      similarity ← calculate_similarity input_text
                     (dict_get article "keywords" (PStr "")) article;
      items ← score_articles input_text rest;
      Ok (Scored article similarity (dict_get article "claps" (PInt 0)) :: items)
  end.

Definition Qlt_bool (a b : Q) : bool :=
  match a ?= b with
  | Lt => true
  | _ => false
  end.

Definition claps_int (v : pyval) : option Z :=
  match v with
  | PInt z => Some z
  | _ => None
  end.

(** The key [(x['similarity'], x['claps'])]. *)
Definition sort_key (item : scored) : Q * Z :=
  (s_similarity item, default 0%Z (claps_int (s_claps item))).

(** [<] on two keys, as Python compares tuples: the first components that
    differ decide. *)
Definition key_lt (a b : Q * Z) : bool :=
  match a.1 ?= b.1 with
  | Lt => true
  | Gt => false
  | Eq => (a.2 <? b.2)%Z
  end.

Fixpoint insert_desc (x : scored) (l : list scored) : list scored :=
  match l with
  | [] => [x]
  | y :: l' =>
      if key_lt (sort_key x) (sort_key y)
      then y :: insert_desc x l'
      else x :: y :: l'
  end.

Fixpoint sort_desc (l : list scored) : list scored :=
  match l with
  | [] => []
  | x :: l' => insert_desc x (sort_desc l')
  end.

(** [l.sort(key=..., reverse=True)]: Python's sort is stable, also when
    reversed, so its result is the one a stable insertion sort gives.  The
    claps that [load_articles] stores are always integers (see
    [loaded_claps_int] below); a list holding another kind of claps value,
    which Python orders only between some pairs, is rejected here with the
    [TypeError] such a comparison raises. *)
Definition list_sort_reverse (l : list scored) : result (list scored) :=
  if forallb (λ item, bool_decide (is_Some (claps_int (s_claps item)))) l
  then Ok (sort_desc l)
  else Raise TypeError.

(** [l[:n]]; a negative [n] counts from the end. *)
Definition slice_to {A} (l : list A) (n : Z) : list A :=
  if (0 <=? n)%Z then take (Z.to_nat n) l
  else take (Z.to_nat (Z.of_nat (length l) + n)) l.

(** The nearest integer, ties to the even one. *)
Definition round_half_even (q : Q) : Z :=
  let n := Qnum q in
  let d := Z.pos (Qden q) in
  let f := (n / d)%Z in
  let r := (n mod d)%Z in
  if (2 * r <? d)%Z then f
  else if (d <? 2 * r)%Z then (f + 1)%Z
  else if Z.even f then f else (f + 1)%Z.

(** [round(q, ndigits)]: the nearest multiple of 10^-ndigits.  An exact tie
    goes to the even neighbour here; Python decides it by the binary value
    of the float. *)
Definition py_round (q : Q) (ndigits : nat) : Q :=
  let p := (10 ^ Z.of_nat ndigits)%Z in
  round_half_even (q * inject_Z p) # Z.to_pos p.

Definition format_result (item : scored) : summary :=
  let article := s_article item in
  {| r_url := dict_get article "url" (PStr "");
     r_title := dict_get article "title" (PStr "");
     r_claps := dict_get article "claps" (PInt 0);
     r_similarity_score := py_round (s_similarity item) 3 |}.

(** The list comprehension that keeps the items with some similarity. *)
Definition similar_items (scored_articles : list scored) : list scored :=
  List.filter (λ item, Qlt_bool 0 (s_similarity item)) scored_articles.

Definition find_similar_articles
    (input_text : string) (articles : list (gmap string pyval)) (top_n : Z)
  : result (list summary) :=
  match articles with
  | [] => Ok []
  | _ =>
      scored_articles ← score_articles input_text articles;
      similar_articles ← list_sort_reverse (similar_items scored_articles);
      let top_articles := slice_to similar_articles top_n in
      Ok (format_result <$> top_articles)
  end.

(** ** The endpoints *)

(** What [request.get_json()] hands back: [null], an object, or another
    JSON value, of which only the truth value matters. *)
Inductive json :=
| JNull
| JDict (d : gmap string pyval)
| JOther (truth : bool).

Definition json_truthy (data : json) : bool :=
  match data with
  | JNull => false
  | JDict d => negb (bool_decide (d = ∅))
  | JOther t => t
  end.

Inductive body :=
| ErrorMessage (error : string)
| NoArticles (error : string) (results : list summary)
| ErrorOf (e : exn)
| SearchResults (query : string) (total_articles results_count : nat)
                (results : list summary).

Record response := Response { status : nat; payload : body }.

Definition no_articles_message : string :=
  "No articles found. Please ensure scrapping_results.csv exists and contains data.".

(** The text [Query parameter "q" is required]. *)
Definition missing_q_message : string :=
  let quote := String (ascii_of_nat 34) EmptyString in
  "Query parameter " +:+ quote +:+ "q" +:+ quote +:+ " is required".

(** The part of both handlers that follows the check of the query. *)
Definition run_search (query : string) (f : csv_file) : result response :=
  articles ← load_articles f;
  match articles with
  | [] => Ok (Response 404 (NoArticles no_articles_message []))
  | _ =>
      results ← find_similar_articles query articles 10;
      Ok (Response 200
            (SearchResults query (length articles) (length results) results))
  end.

(** [data.get('query', '').strip()] *)
Definition query_of (data : json) : result string :=
  match data with
  | JDict d =>
      match dict_get d "query" (PStr "") with
      | PStr s => Ok (strip s)
      | _ => Raise AttributeError
      end
  | _ => Raise AttributeError
  end.

(** [POST /search]; [data] is the outcome of [request.get_json()].  Every
    exception of the body becomes a 500 response. *)
Definition search_articles (data : result json) (f : csv_file) : response :=
  let attempt : result response :=
    data ← data;
    if negb (json_truthy data)
    then Ok (Response 400 (ErrorMessage "No JSON data provided"))
    else
      query ← query_of data;
      if String.eqb query ""
      then Ok (Response 400 (ErrorMessage "Query parameter is required"))
      else run_search query f in
  match attempt with
  | Ok r => r
  | Raise e => Response 500 (ErrorOf e)
  end.

(** [GET /search?q=...]; [q] is the parameter when the request has one.
    Nothing is caught here: an exception leaves the handler. *)
Definition search_articles_get (q : option string) (f : csv_file) : result response :=
  let query := strip (default "" q) in
  if String.eqb query ""
  then Ok (Response 400 (ErrorMessage missing_q_message))
  else run_search query f.

(** ** Notions used by the statements *)

(** The longest prefix of [l] inside the class [P] ([while_in]), and what
    follows it ([after_run]). *)
Fixpoint while_in (P : ascii → bool) (l : list ascii) : list ascii :=
  match l with
  | c :: l' => if P c then c :: while_in P l' else []
  | [] => []
  end.

Fixpoint after_run (P : ascii → bool) (l : list ascii) : list ascii :=
  match l with
  | c :: l' => if P c then after_run P l' else l
  | [] => []
  end.

Definition head_in (P : ascii → bool) (l : list ascii) : bool :=
  match l with
  | c :: _ => P c
  | [] => false
  end.

(** The maximal runs of characters of the class [P], from left to right: a
    character of the class either extends the run that starts right behind
    it or is a run of its own. *)
Fixpoint runs (P : ascii → bool) (l : list ascii) : list (list ascii) :=
  match l with
  | [] => []
  | c :: l' =>
      if P c then
        if head_in P l' then
          match runs P l' with
          | r :: rs => (c :: r) :: rs
          | [] => [[c]]
          end
        else [c] :: runs P l'
      else runs P l'
  end.

Definition lowered (r : list ascii) : string :=
  string_of_list_ascii (lower_char <$> r).


(** A run of at least three characters, all of them letters. *)
Definition is_token (r : list ascii) : bool :=
  forallb is_alpha r && (3 <=? length r)%nat.




(** A text field of a record, the empty string when the record lacks it. *)
Definition field_text (article : gmap string pyval) (k : string) : string :=
  match article !! k with
  | Some (PStr s) => s
  | _ => ""
  end.

Definition text_or_absent (o : option pyval) : bool :=
  match o with
  | None | Some (PStr _) => true
  | _ => false
  end.

Definition int_or_absent (o : option pyval) : bool :=
  match o with
  | None | Some (PInt _) => true
  | _ => false
  end.

(** The four fields the scorer concatenates hold text where present. *)
Definition text_fields_ok (article : gmap string pyval) : bool :=
  text_or_absent (article !! "text") && text_or_absent (article !! "title")
  && text_or_absent (article !! "subtitle")
  && text_or_absent (article !! "keywords").

(** A record as the data model has it: text in the text fields, an integer
    in [claps]. *)
Definition well_typed (article : gmap string pyval) : bool :=
  text_fields_ok article && int_or_absent (article !! "claps").

Definition article_concat (article : gmap string pyval) : string :=
  (((((field_text article "text" +:+ " ") +:+ field_text article "title") +:+ " ")
      +:+ field_text article "subtitle") +:+ " ") +:+ field_text article "keywords".

Definition jaccard (X Y : gset string) : Q :=
  if (size X =? 0)%nat || (size (X ∪ Y) =? 0)%nat then 0
  else Q_of_nat (size (X ∩ Y)) / Q_of_nat (size (X ∪ Y)).

(** A tenth for every word of [X] that occurs inside the keyword text [kw],
    when there is such a text. *)
Definition keyword_boost (X : gset string) (kw : string) : Q :=
  if String.eqb kw "" then 0
  else (1 # 10) * Q_of_nat (size (filter (λ w, Is_true (str_contains kw w)) X)).

Definition claps_of (v : pyval) : Z := default 0%Z (claps_int v).

(** [a] may stand right before [b] in a ranking by (similarity, claps). *)
Definition ranks_before (sa : Q) (ca : Z) (sb : Q) (cb : Z) : Prop :=
  sb < sa ∨ (sa == sb ∧ (cb <= ca)%Z).

(** The items of a list that carry the key [k]. *)
Definition has_key (k : Q * Z) (item : scored) : bool :=
  Qeq_bool (s_similarity item) k.1 && (claps_of (s_claps item) =? k.2)%Z.

(** The rows a reader hands out before it ends or fails. *)
Fixpoint rows_read (rd : reader) : list (gmap string pyval) :=
  match rd with
  | NextRow row rest => row :: rows_read rest
  | _ => []
  end.

Fixpoint read_fails (rd : reader) : bool :=
  match rd with
  | NextRow _ rest => read_fails rest
  | ReadError _ => true
  | EndOfFile => false
  end.

(** The number the loader stores for a row's claps. *)
Definition claps_value (row : gmap string pyval) : Z :=
  match row !! "claps" with
  | Some (PStr s) => default 0%Z (int_of_str s)
  | Some (PInt z) => z
  | _ => 0%Z
  end.

Definition with_claps (row : gmap string pyval) : gmap string pyval :=
  <["claps" := PInt (claps_value row)]> row.

(** [x] may stand before [y] in the sorted list: its key is not smaller. *)
Definition key_ge (x y : scored) : Prop :=
  key_lt (sort_key x) (sort_key y) = false.

(** [item] is what the scoring loop makes of [article]. *)
Definition scored_from (input_text : string) (article : gmap string pyval)
    (item : scored) : Prop :=
  s_article item = article
  ∧ calculate_similarity input_text (dict_get article "keywords" (PStr "")) article
    = Ok (s_similarity item)
  ∧ s_claps item = dict_get article "claps" (PInt 0).

Definition claps_is_int (item : scored) : bool :=
  bool_decide (is_Some (claps_int (s_claps item))).

(** ** Inputs of the examples *)

Definition upper_keywords : gmap string pyval := {["keywords" := PStr "MACHINE"]}.

Definition long_query : string :=
  "baa bab bac bad bae baf bag bah bai baj bak bal bam ban bao bap baq bar bas bat bau bav baw bax bay baz bba bbb bbc bbd bbe bbf bbg".

Definition short_article : gmap string pyval :=
  <["text" := PStr "baa zza"]> {["claps" := PInt 1]}.

Definition longer_article : gmap string pyval :=
  <["text" := PStr "baa zza zzb"]> {["claps" := PInt 100]}.

Definition abc_article (c : Z) : gmap string pyval :=
  <["text" := PStr "abc"]> {["claps" := PInt c]}.

Definition negative_row : gmap string pyval :=
  <["title" := PStr "Refunds"]> {["claps" := PStr "-5"]}.

Definition plain_row : gmap string pyval :=
  <["title" := PStr "Databases"]> {["claps" := PStr "12"]}.

Definition hello_article : gmap string pyval := {["text" := PStr "hello world"]}.

Definition hello_file : csv_file := Opened (NextRow hello_article EndOfFile).

Definition keyword_article : gmap string pyval :=
  <["keywords" := PStr "machine,learning,ai"]> {["claps" := PInt 500]}.

Definition popular_article : gmap string pyval :=
  <["text" := PStr "machine shops of the north"]> {["claps" := PInt 10000]}.

Definition claps_article (c : Z) : gmap string pyval :=
  <["text" := PStr "learning by doing"]> {["claps" := PInt c]}.

(** ** The count endpoint *)

Definition CSV_FILE : string := "scrapping_results.csv".

(** The body of the answer of [GET /articles]. *)
Record articles_count := ArticlesCount {
  count_total_articles : nat;
  count_csv_file : string;
  count_file_exists : bool
}.

(** [get_articles_count()]: nothing is caught here, an exception of
    [load_articles] would leave the handler. *)
Definition get_articles_count (f : csv_file) : result articles_count :=
  articles ← load_articles f;
  Ok (ArticlesCount (length articles) CSV_FILE (path_exists f)).

(** ** Notions used by the further properties *)

(** A value with its text lowered, and a record with every text lowered. *)
Definition lower_value (v : pyval) : pyval :=
  match v with
  | PStr s => PStr (lower s)
  | _ => v
  end.

Definition lower_fields (article : gmap string pyval) : gmap string pyval :=
  lower_value <$> article.

(** The characters a text that [int] accepts is made of. *)
Definition int_char (c : ascii) : bool :=
  is_digit c || is_space c || Ascii.eqb c "_" || Ascii.eqb c "+" || Ascii.eqb c "-".

(** A row whose claps are written the way the site shows them, and a row
    that ends before its text column. *)
Definition abbreviated_row : gmap string pyval := {["claps" := PStr "1.2K"]}.

Definition short_row : gmap string pyval :=
  <["title" := PStr "Cut short"]> {["text" := PNone]}.

(** What [csv.DictReader] makes of the row [https://example.org/a,Cut short]
    under the header [url,title,subtitle,text,keywords,claps]: the columns
    the row lacks hold [None]. *)
Definition cut_row : gmap string pyval :=
  <["url" := PStr "https://example.org/a"]>
    (<["title" := PStr "Cut short"]>
       (<["subtitle" := PNone]>
          (<["text" := PNone]>
             (<["keywords" := PNone]> {["claps" := PNone]})))).

(** The same row as a record that lacks the four columns. *)
Definition bare_row : gmap string pyval :=
  <["url" := PStr "https://example.org/a"]> {["title" := PStr "Cut short"]}.

(** The score the scorer gives to [article] when its text fields hold text:
    a field the record lacks counts as the empty string. *)
Definition default_score (input_text : string) (article : gmap string pyval) : Q :=
  overlap_score (word_set input_text) (word_set (article_concat article))
    (lower (field_text article "keywords")).

(** What the scoring loop makes of such an article. *)
Definition scored_default (input_text : string) (article : gmap string pyval)
  : scored :=
  Scored article (default_score input_text article)
    (dict_get article "claps" (PInt 0)).

(** ** Tactics *)

(** One field of the record: it holds text, an integer or [None], or the
    record lacks it.  The cases that cannot go on are closed at once. *)
Ltac field_cases article k :=
  destruct (article !! k) as [[?|?|]|];
  cbn [default py_add py_lower mbind result_bind text_or_absent andb];
  try reflexivity.

Local Close Scope Q_scope.
Local Close Scope Z_scope.

(** * Properties

    ** The tokens of the pattern *)

Lemma alpha_is_word c : is_alpha c = true → is_word c = true.
Proof. unfold is_word. intros ->. reflexivity. Qed.

Lemma lower_char_alpha c : is_alpha (lower_char c) = is_alpha c.
Proof. destruct c as [[] [] [] [] [] [] [] []]; reflexivity. Qed.

Lemma lower_char_word c : is_word (lower_char c) = is_word c.
Proof. destruct c as [[] [] [] [] [] [] [] []]; reflexivity. Qed.

Lemma lower_chars s :
  list_ascii_of_string (lower s) = lower_char <$> list_ascii_of_string s.
Proof. induction s as [|c s IH]; simpl; [done | by rewrite IH]. Qed.

Section Runs.
Variable P : ascii → bool.

Lemma runs_cons_in c l :
  P c = true →
  runs P (c :: l) = (c :: while_in P l) :: runs P (after_run P l).
Proof.
  revert c. induction l as [|d l IH]; intros c Hc.
  - simpl. by rewrite Hc.
  - cbn [runs head_in while_in after_run]. rewrite Hc.
    destruct (P d) eqn:Hd.
    2:{ cbn [runs]. by rewrite Hd. }
    specialize (IH d Hd). cbn [runs] in IH. rewrite Hd in IH.
    rewrite IH. done.
Qed.

Lemma runs_cons_out c l : P c = false → runs P (c :: l) = runs P l.
Proof. intros Hc. simpl. by rewrite Hc. Qed.

Lemma after_run_idemp l : after_run P (after_run P l) = after_run P l.
Proof.
  induction l as [|c l IH]; simpl; [done|].
  destruct (P c) eqn:Hc; [done|]. simpl. by rewrite Hc.
Qed.

Lemma runs_fmap (f : ascii → ascii) (l : list ascii) :
  (∀ c, P (f c) = P c) →
  runs P (f <$> l) = (fmap f : list ascii → list ascii) <$> runs P l.
Proof.
  intros Hf. induction l as [|c l IH]; [done|].
  cbn [fmap list_fmap runs]. change (list_fmap _ _ f l) with (f <$> l).
  rewrite Hf. destruct (P c); [|done].
  assert (head_in P (f <$> l) = head_in P l) as ->.
  { destruct l; simpl; [done | apply Hf]. }
  destruct (head_in P l); rewrite IH; [|done].
  by destruct (runs P l).
Qed.
End Runs.

Lemma alpha_prefix_le l : (alpha_prefix l ≤ length l)%nat.
Proof. induction l as [|c l IH]; simpl; [lia|]. destruct (is_alpha c); simpl; lia. Qed.

Lemma alpha_prefix_inside l j :
  (j < alpha_prefix l)%nat → ∃ c, nth_error l j = Some c ∧ is_alpha c = true.
Proof.
  revert j. induction l as [|c l IH]; intros j Hj; simpl in *; [lia|].
  destruct (is_alpha c) eqn:Hc; [|lia].
  destruct j as [|j]; simpl; [eauto|]. apply IH. lia.
Qed.

Lemma give_back_below l j :
  (j < alpha_prefix l)%nat → give_back j l = None.
Proof.
  induction j as [|j IH]; intros Hj; [done|].
  cbn [give_back].
  destruct (alpha_prefix_inside l j) as (c & -> & Hc); [lia|].
  destruct (alpha_prefix_inside l (S j)) as (d & -> & Hd); [lia|].
  unfold at_boundary, word_side.
  rewrite (alpha_is_word _ Hc), (alpha_is_word _ Hd), andb_false_r.
  apply IH. lia.
Qed.

Lemma give_back_alpha_prefix l :
  give_back (alpha_prefix l) l =
  if (3 <=? alpha_prefix l)%nat && negb (word_side (nth_error l (alpha_prefix l)))
  then Some (alpha_prefix l) else None.
Proof.
  destruct (alpha_prefix l) as [|k] eqn:Hk; [done|].
  cbn [give_back].
  destruct (alpha_prefix_inside l k) as (c & -> & Hc); [lia|].
  unfold at_boundary at 1. cbn [word_side]. rewrite (alpha_is_word _ Hc).
  cbn [xorb]. destruct (_ && _); [done|].
  apply give_back_below. lia.
Qed.

Lemma word_run_alpha l :
  forallb is_alpha (while_in is_word l)
  = negb (word_side (nth_error l (alpha_prefix l))).
Proof.
  induction l as [|c l IH]; [done|]. simpl.
  destruct (is_alpha c) eqn:Hc.
  - rewrite (alpha_is_word _ Hc). simpl. by rewrite Hc, IH.
  - simpl. destruct (is_word c); simpl; [by rewrite Hc | done].
Qed.

Lemma word_run_split l :
  word_side (nth_error l (alpha_prefix l)) = false →
  while_in is_word l = firstn (alpha_prefix l) l
  ∧ after_run is_word l = skipn (alpha_prefix l) l.
Proof.
  induction l as [|c l IH]; [done|]. simpl.
  destruct (is_alpha c) eqn:Hc.
  - rewrite (alpha_is_word _ Hc). simpl. intros H.
    destruct (IH H) as [-> ->]. done.
  - simpl. by intros ->.
Qed.

Lemma match_at_word_start before l :
  word_side before = false → head_in is_word l = true →
  match_at before l =
  if is_token (while_in is_word l) then Some (length (while_in is_word l)) else None.
Proof.
  intros Hb Hl. unfold match_at, at_boundary. rewrite Hb.
  destruct l as [|c l]; [done|]. simpl in Hl.
  cbn [nth_error word_side]. rewrite Hl. cbn [xorb].
  rewrite give_back_alpha_prefix. unfold is_token.
  rewrite word_run_alpha.
  destruct (word_side (nth_error (c :: l) (alpha_prefix (c :: l)))) eqn:Hw.
  - by rewrite andb_false_r.
  - destruct (word_run_split _ Hw) as [-> _].
    rewrite length_firstn. rewrite (Nat.min_l _ _ (alpha_prefix_le (c :: l))).
    rewrite andb_true_r. reflexivity.
Qed.

Lemma match_at_no_start before l :
  word_side before = true ∨ head_in is_word l = false → match_at before l = None.
Proof.
  unfold match_at, at_boundary. intros H.
  destruct l as [|c l]; cbn [nth_error word_side alpha_prefix give_back].
  - by destruct (xorb _ _).
  - destruct (is_word c) eqn:Hc.
    + destruct H as [-> | H]; [done | simpl in H; congruence].
    + destruct (is_alpha c) eqn:Ha; [by rewrite (alpha_is_word _ Ha) in Hc|].
      by destruct (xorb _ _).
Qed.

Lemma is_token_length r : is_token r = true → (3 ≤ length r)%nat.
Proof. unfold is_token. intros [_ H]%andb_prop. by apply Nat.leb_le. Qed.

Lemma word_run_inside r j :
  (j < length (while_in is_word r))%nat →
  word_side (nth_error r j) = true.
Proof.
  revert j. induction r as [|c r IH]; intros j Hj; simpl in *; [lia|].
  destruct (is_word c) eqn:Hc; simpl in Hj; [|lia].
  destruct j as [|j]; simpl; [done|]. apply IH. lia.
Qed.

Lemma word_run_take r :
  firstn (length (while_in is_word r)) r = while_in is_word r
  ∧ skipn (length (while_in is_word r)) r = after_run is_word r.
Proof.
  induction r as [|c r [IH1 IH2]]; [done|]. simpl.
  destruct (is_word c); simpl; [|done]. by rewrite IH1, IH2.
Qed.

Lemma after_run_length r : (length (after_run is_word r) ≤ length r)%nat.
Proof. induction r as [|c r IH]; simpl; [lia|]. destruct (is_word c); simpl; lia. Qed.

(** The scan finds the word runs that are tokens.  To the right of a word
    character it first has to leave the word it is in. *)
Lemma scan_runs fuel before l :
  (length l < fuel)%nat →
  scan fuel before l =
  List.filter is_token
    (runs is_word (if word_side before then after_run is_word l else l)).
Proof.
  revert before l. induction fuel as [|fuel IH]; intros before l Hfuel; [lia|].
  cbn [scan].
  destruct (word_side before) eqn:Hb.
  - rewrite match_at_no_start by auto.
    destruct l as [|c l]; [done|]. simpl in Hfuel.
    rewrite IH by lia. cbn [word_side after_run].
    destruct (is_word c) eqn:Hc; [done|].
    by rewrite runs_cons_out.
  - destruct (head_in is_word l) eqn:Hl.
    + rewrite match_at_word_start by done.
      destruct l as [|c l]; [done|]. simpl in Hl, Hfuel.
      assert (while_in is_word (c :: l) = c :: while_in is_word l) as Hrun
        by (simpl; by rewrite Hl).
      assert (after_run is_word (c :: l) = after_run is_word l) as Hafter
        by (simpl; by rewrite Hl).
      rewrite (runs_cons_in _ _ _ Hl), <- Hrun, <- Hafter.
      cbn [List.filter].
      destruct (is_token (while_in is_word (c :: l))) eqn:Htok.
      * pose proof (is_token_length _ Htok) as Hlen.
        destruct (word_run_take (c :: l)) as [-> Hskip].
        rewrite IH.
        -- rewrite word_run_inside by lia. by rewrite Hskip, after_run_idemp.
        -- rewrite Hskip, Hafter. pose proof (after_run_length l). lia.
      * rewrite IH by lia. cbn [word_side]. rewrite Hl. by rewrite Hafter.
    + rewrite match_at_no_start by auto.
      destruct l as [|c l]; [done|]. simpl in Hl, Hfuel.
      rewrite IH by lia. cbn [word_side]. rewrite Hl.
      by rewrite runs_cons_out.
Qed.

(** Every amount of fuel above the length of the text gives the same
    matches: the scan never runs out. *)
Lemma scan_enough_fuel fuel fuel' before l :
  (length l < fuel)%nat → (length l < fuel')%nat →
  scan fuel before l = scan fuel' before l.
Proof. intros H H'. by rewrite !scan_runs. Qed.

Lemma is_token_lower (r : list ascii) : is_token (lower_char <$> r) = is_token r.
Proof.
  unfold is_token. rewrite length_fmap. f_equal.
  induction r as [|c r IH]; [done|].
  cbn [fmap list_fmap forallb]. rewrite lower_char_alpha. f_equal. apply IH.
Qed.

Lemma filter_fmap_commute {A B} (f : A → B) (p : B → bool) (q : A → bool) (l : list A) :
  (∀ x, p (f x) = q x) → List.filter p (f <$> l) = f <$> List.filter q l.
Proof.
  intros H. induction l as [|x l IH]; [done|].
  rewrite fmap_cons. cbn [List.filter]. rewrite H.
  destruct (q x); [rewrite fmap_cons|]; by rewrite IH.
Qed.

Lemma findall_words_lower s :
  findall_words (lower s) =
  lowered <$> List.filter is_token (runs is_word (list_ascii_of_string s)).
Proof.
  unfold findall_words. rewrite scan_runs by lia. cbn [word_side].
  rewrite lower_chars, (runs_fmap _ _ _ lower_char_word).
  rewrite (filter_fmap_commute _ _ is_token) by apply is_token_lower.
  rewrite <- list_fmap_compose. done.
Qed.

(** ** The scorer *)

Lemma Q_of_nat_nonneg n : (0 <= Q_of_nat n)%Q.
Proof. unfold Q_of_nat, Qle. simpl. lia. Qed.

Lemma Q_of_nat_pos n : (0 < n)%nat → (0 < Q_of_nat n)%Q.
Proof. unfold Q_of_nat, Qlt. simpl. lia. Qed.

Lemma Q_of_nat_le n m : (n ≤ m)%nat → (Q_of_nat n <= Q_of_nat m)%Q.
Proof. unfold Q_of_nat, Qle. simpl. lia. Qed.

Lemma ratio_bounds i u :
  (i ≤ u)%nat → (0 < u)%nat →
  (0 <= Q_of_nat i / Q_of_nat u)%Q ∧ (Q_of_nat i / Q_of_nat u <= 1)%Q.
Proof.
  intros Hiu Hu. pose proof (Q_of_nat_pos u Hu) as Hpos. split.
  - apply Qle_shift_div_l; [done|]. rewrite Qmult_0_l. apply Q_of_nat_nonneg.
  - apply Qle_shift_div_r; [done|]. rewrite Qmult_1_l. by apply Q_of_nat_le.
Qed.

Lemma ratio_pos i u :
  (0 < i)%nat → (0 < u)%nat → (0 < Q_of_nat i / Q_of_nat u)%Q.
Proof.
  intros Hi Hu. apply Qlt_shift_div_l; [by apply Q_of_nat_pos|].
  rewrite Qmult_0_l. by apply Q_of_nat_pos.
Qed.

Lemma inter_le_union (X Y : gset string) : (size (X ∩ Y) ≤ size (X ∪ Y))%nat.
Proof.
  apply subseteq_size. intros w [Hw _]%elem_of_intersection.
  apply elem_of_union. by left.
Qed.

Lemma left_le_union (X Y : gset string) : (size X ≤ size (X ∪ Y))%nat.
Proof. apply subseteq_size. intros w Hw. apply elem_of_union. by left. Qed.

Lemma matches_le (P : string → Prop) `{!∀ w, Decision (P w)} (X : gset string) :
  (size (filter P X) ≤ size X)%nat.
Proof. apply subseteq_size. by intros w [_ Hw]%elem_of_filter. Qed.

Lemma overlap_score_bounds X Y kw :
  (0 <= overlap_score X Y kw)%Q ∧ (overlap_score X Y kw <= 1)%Q.
Proof.
  unfold overlap_score.
  destruct (size X =? 0)%nat; [split; [apply Qle_refl | discriminate]|].
  destruct (size (X ∪ Y) =? 0)%nat eqn:Hu; [split; [apply Qle_refl | discriminate]|].
  apply Nat.eqb_neq in Hu.
  destruct (ratio_bounds (size (X ∩ Y)) (size (X ∪ Y))) as [Hlo _];
    [apply inter_le_union | lia |].
  split; [|apply Q.le_min_r].
  apply Q.min_glb; [|discriminate].
  destruct (negb _); [|done].
  destruct (0 <? _)%nat; [|done].
  pose proof (Q_of_nat_nonneg
    (size (filter (λ word, Is_true (str_contains kw word)) X))) as Hk.
  nra.
Qed.

Lemma overlap_score_formula X Y kw :
  (overlap_score X Y kw == Qmin (jaccard X Y + keyword_boost X kw) 1)%Q.
Proof.
  unfold overlap_score, jaccard, keyword_boost.
  pose proof (left_le_union X Y) as HXU.
  pose proof (matches_le (λ w, Is_true (str_contains kw w)) X) as Hm.
  destruct (size X =? 0)%nat eqn:HX.
  - apply Nat.eqb_eq in HX. cbn [orb].
    assert (size (filter (λ w, Is_true (str_contains kw w)) X) = 0%nat) as -> by lia.
    by destruct (String.eqb kw "").
  - apply Nat.eqb_neq in HX.
    destruct (size (X ∪ Y) =? 0)%nat eqn:HU; [apply Nat.eqb_eq in HU; lia|].
    cbn [orb]. apply Q.min_compat; [|reflexivity].
    destruct (String.eqb kw ""); cbn [negb]; [ring|].
    destruct (0 <? _)%nat eqn:Hk; [ring|].
    apply Nat.ltb_ge in Hk.
    assert (size (filter (λ w, Is_true (str_contains kw w)) X) = 0%nat) as -> by lia.
    unfold Q_of_nat. simpl. ring.
Qed.

(** The scorer fails exactly on a record with a text field that holds
    something else than text, and otherwise scores the word sets of the
    query and of the four fields joined by blanks. *)
Lemma calculate_similarity_eq text keywords article :
  calculate_similarity text keywords article =
  if text_fields_ok article
  then Ok (overlap_score (word_set text) (word_set (article_concat article))
             (lower (field_text article "keywords")))
  else Raise TypeError.
Proof.
  unfold calculate_similarity, text_fields_ok, article_concat, field_text, dict_get.
  field_cases article "text"; field_cases article "title";
    field_cases article "subtitle"; field_cases article "keywords".
Qed.

Lemma field_text_insert_absent article k k' :
  article !! k = None →
  field_text (<[k := PStr ""]> article) k' = field_text article k'.
Proof.
  intros Hk. unfold field_text. destruct (decide (k = k')) as [<-|Hne].
  - by rewrite lookup_insert_eq, Hk.
  - by rewrite lookup_insert_ne.
Qed.

Lemma text_or_absent_insert_absent (article : gmap string pyval) k k' :
  article !! k = None →
  text_or_absent (<[k := PStr ""]> article !! k') = text_or_absent (article !! k').
Proof.
  intros Hk. destruct (decide (k = k')) as [<-|Hne].
  - by rewrite lookup_insert_eq, Hk.
  - by rewrite lookup_insert_ne.
Qed.

Lemma calculate_similarity_absent text keywords article k :
  article !! k = None →
  calculate_similarity text keywords (<[k := PStr ""]> article)
  = calculate_similarity text keywords article.
Proof.
  intros Hk. rewrite !calculate_similarity_eq.
  unfold text_fields_ok, article_concat.
  by rewrite !text_or_absent_insert_absent, !field_text_insert_absent.
Qed.

(** ** The order of the ranking *)

Lemma key_lt_asym a b : key_lt a b = true → key_lt b a = false.
Proof.
  unfold key_lt. rewrite <- (Qcompare_antisym a.1 b.1).
  destruct (a.1 ?= b.1)%Q; simpl; [lia | done | done].
Qed.

Lemma key_ge_ranks x y :
  key_ge x y →
  ranks_before (s_similarity x) (claps_of (s_claps x))
               (s_similarity y) (claps_of (s_claps y)).
Proof.
  unfold key_ge, key_lt, sort_key, ranks_before, claps_of. simpl.
  destruct (s_similarity x ?= s_similarity y)%Q eqn:Hc; [| done |].
  - intros H. right. split; [by apply Qeq_alt | lia].
  - intros _. left. by apply Qgt_alt.
Qed.

Lemma has_key_not_lt k x y :
  has_key k x = true → has_key k y = true →
  key_lt (sort_key x) (sort_key y) = false.
Proof.
  unfold has_key, key_lt, sort_key, claps_of. simpl.
  intros [Hx Hcx]%andb_prop [Hy Hcy]%andb_prop.
  apply Qeq_bool_iff in Hx, Hy. apply Z.eqb_eq in Hcx, Hcy.
  assert (s_similarity x == s_similarity y)%Q as ->%Qeq_alt by (by rewrite Hx, Hy).
  lia.
Qed.

Lemma insert_desc_sorted x l : Sorted key_ge l → Sorted key_ge (insert_desc x l).
Proof.
  induction 1 as [|y l Hl IH Hhd]; simpl.
  - by repeat constructor.
  - destruct (key_lt (sort_key x) (sort_key y)) eqn:Hxy.
    + constructor; [done|].
      destruct Hhd as [|z l Hyz]; simpl.
      * constructor. by apply key_lt_asym.
      * destruct (key_lt (sort_key x) (sort_key z)); constructor;
          [done | by apply key_lt_asym].
    + constructor; [by constructor | by constructor].
Qed.

Lemma sort_desc_sorted l : Sorted key_ge (sort_desc l).
Proof. induction l; simpl; [constructor | by apply insert_desc_sorted]. Qed.

Lemma insert_desc_perm x l : insert_desc x l ≡ₚ x :: l.
Proof.
  induction l as [|y l IH]; simpl; [done|].
  destruct (key_lt _ _); [|done]. rewrite IH. apply Permutation_swap.
Qed.

Lemma sort_desc_perm l : sort_desc l ≡ₚ l.
Proof.
  induction l as [|x l IH]; simpl; [done|].
  by rewrite insert_desc_perm, IH.
Qed.

Lemma insert_desc_stable k x l :
  List.filter (has_key k) (insert_desc x l) = List.filter (has_key k) (x :: l).
Proof.
  induction l as [|y l IH]; [done|]. cbn [insert_desc].
  destruct (key_lt (sort_key x) (sort_key y)) eqn:Hxy; [|done].
  cbn [List.filter] in *. rewrite IH.
  destruct (has_key k x) eqn:Hx, (has_key k y) eqn:Hy; try done.
  by rewrite (has_key_not_lt k x y) in Hxy.
Qed.

Lemma sort_desc_stable k l :
  List.filter (has_key k) (sort_desc l) = List.filter (has_key k) l.
Proof.
  induction l as [|x l IH]; [done|]. cbn [sort_desc].
  rewrite insert_desc_stable. cbn [List.filter]. by rewrite IH.
Qed.

Lemma sorted_adjacent {A} (R : A → A → Prop) (l : list A) i a b :
  Sorted R l → l !! i = Some a → l !! S i = Some b → R a b.
Proof.
  intros Hl. revert i. induction Hl as [|x l Hl IH Hhd]; intros i Ha Hb; [done|].
  destruct i as [|i]; simpl in *.
  - injection Ha as ->. destruct Hhd; simpl in Hb; [done|]. by injection Hb as ->.
  - eauto.
Qed.

(** ** Slices *)

Lemma slice_to_prefix {A} (l : list A) n : slice_to l n `prefix_of` l.
Proof. unfold slice_to. destruct (0 <=? n)%Z; apply prefix_take. Qed.

Lemma slice_to_length {A} (l : list A) n :
  (0 <= n)%Z → (Z.of_nat (length (slice_to l n)) <= Z.min n (Z.of_nat (length l)))%Z.
Proof.
  intros Hn. unfold slice_to. rewrite (proj2 (Z.leb_le 0 n) Hn).
  rewrite length_take. lia.
Qed.

Lemma prefix_lookup {A} (l1 l2 : list A) i a :
  l1 `prefix_of` l2 → l1 !! i = Some a → l2 !! i = Some a.
Proof. intros [k ->] H. by apply lookup_app_l_Some. Qed.

Lemma filter_prefix {A} (p : A → bool) (l1 l2 : list A) :
  l1 `prefix_of` l2 → List.filter p l1 `prefix_of` List.filter p l2.
Proof. intros [k ->]. rewrite List.filter_app. by apply prefix_app_r. Qed.

(** ** Rounding *)

Lemma round_half_even_mono a b : (a <= b)%Q → (round_half_even a <= round_half_even b)%Z.
Proof.
  intros Hab. pose proof (Qfloor_resp_le _ _ Hab) as Hfl.
  destruct a as [n1 d1], b as [n2 d2].
  unfold Qle in Hab. unfold round_half_even. simpl in *.
  pose proof (Z.div_mod n1 (Z.pos d1) ltac:(lia)) as E1.
  pose proof (Z.div_mod n2 (Z.pos d2) ltac:(lia)) as E2.
  pose proof (Z.mod_pos_bound n1 (Z.pos d1) ltac:(lia)) as B1.
  pose proof (Z.mod_pos_bound n2 (Z.pos d2) ltac:(lia)) as B2.
  set (f1 := (n1 / Z.pos d1)%Z) in *. set (f2 := (n2 / Z.pos d2)%Z) in *.
  set (r1 := (n1 mod Z.pos d1)%Z) in *. set (r2 := (n2 mod Z.pos d2)%Z) in *.
  destruct (Z.eq_dec f1 f2) as [Hf|Hf].
  - assert (r1 * Z.pos d2 <= r2 * Z.pos d1)%Z as Hr by nia.
    rewrite <- Hf.
    destruct (Z.ltb_spec (2 * r1) (Z.pos d1)); [repeat case_match; lia|].
    destruct (Z.ltb_spec (Z.pos d1) (2 * r1)).
    + assert (Z.pos d2 < 2 * r2)%Z by nia.
      destruct (Z.ltb_spec (2 * r2) (Z.pos d2)); [lia|].
      destruct (Z.ltb_spec (Z.pos d2) (2 * r2)); lia.
    + assert (Z.pos d2 <= 2 * r2)%Z by nia.
      destruct (Z.ltb_spec (2 * r2) (Z.pos d2)); [lia|].
      destruct (Z.ltb_spec (Z.pos d2) (2 * r2)); destruct (Z.even f1); lia.
  - assert (f1 + 1 <= f2)%Z by lia. repeat case_match; lia.
Qed.

Lemma py_round_mono a b n : (a <= b)%Q → (py_round a n <= py_round b n)%Q.
Proof.
  intros Hab. unfold py_round.
  assert (0 < 10 ^ Z.of_nat n)%Z as Hp by (apply Z.pow_pos_nonneg; lia).
  assert (round_half_even (a * inject_Z (10 ^ Z.of_nat n))
          <= round_half_even (b * inject_Z (10 ^ Z.of_nat n)))%Z as Hr.
  { apply round_half_even_mono, Qmult_le_compat_r; [done|].
    unfold Qle. simpl. lia. }
  unfold Qle. simpl. nia.
Qed.

(** ** The loader *)

Lemma convert_claps_eq row : convert_claps row = Ok (with_claps row).
Proof.
  unfold convert_claps, with_claps, claps_value, dict_get, py_or.
  destruct (row !! "claps") as [[s|z|]|]; simpl; try reflexivity.
  - destruct (String.eqb_spec s "") as [->|Hs]; simpl; [reflexivity|].
    by destruct (int_of_str s).
  - destruct (Z.eqb_spec z 0) as [->|Hz]; reflexivity.
Qed.

Lemma read_rows_eq rd articles :
  (read_rows rd articles).1 = (articles ++ (with_claps <$> rows_read rd))%list.
Proof.
  revert articles.
  induction rd as [|row rest IH|e]; intros articles; cbn [read_rows rows_read].
  - by rewrite fmap_nil, app_nil_r.
  - rewrite convert_claps_eq, IH, fmap_cons. by rewrite <- app_assoc.
  - by rewrite fmap_nil, app_nil_r.
Qed.

Lemma load_articles_opened rd :
  load_articles (Opened rd) = Ok (with_claps <$> rows_read rd).
Proof.
  unfold load_articles. simpl.
  pose proof (read_rows_eq rd []) as H.
  destruct (read_rows rd []) as [articles e]. simpl in H. by rewrite H.
Qed.

Lemma with_claps_lookup row :
  with_claps row !! "claps" = Some (PInt (claps_value row)).
Proof. unfold with_claps. apply lookup_insert_eq. Qed.

Lemma loaded_claps_int f articles :
  load_articles f = Ok articles →
  Forall (λ a, ∃ z, a !! "claps" = Some (PInt z)) articles.
Proof.
  destruct f as [|e|rd]; [by intros [= <-] | by intros [= <-] |].
  rewrite load_articles_opened. intros [= <-].
  apply Forall_fmap, Forall_forall. intros row _. simpl.
  eexists. apply with_claps_lookup.
Qed.

(** ** The ranker *)

Lemma score_articles_inv q arts items :
  score_articles q arts = Ok items → Forall2 (scored_from q) arts items.
Proof.
  revert items. induction arts as [|a arts IH]; intros items; simpl.
  - intros [= <-]. constructor.
  - destruct (calculate_similarity q _ a) as [s|] eqn:Hs; [|done]. simpl.
    destruct (score_articles q arts) as [rest|]; [|done]. simpl.
    intros [= <-]. constructor; [done | by apply IH].
Qed.

Lemma score_articles_total q arts :
  Forall (λ a, text_fields_ok a = true) arts → ∃ items, score_articles q arts = Ok items.
Proof.
  induction 1 as [|a arts Ha _ [rest IH]]; simpl; [eauto|].
  rewrite calculate_similarity_eq, Ha, IH. simpl. eauto.
Qed.

Lemma scored_articles_of q arts items :
  Forall2 (scored_from q) arts items → s_article <$> items = arts.
Proof.
  induction 1 as [|a x arts items (Ha & _ & _) _ IH]; [done|].
  by rewrite fmap_cons, Ha, IH.
Qed.

Lemma find_similar_articles_inv q arts n results :
  find_similar_articles q arts n = Ok results →
  ∃ items,
    score_articles q arts = Ok items
    ∧ forallb claps_is_int (similar_items items) = true
    ∧ results = format_result <$> slice_to (sort_desc (similar_items items)) n.
Proof.
  unfold find_similar_articles. destruct arts as [|a arts].
  - intros [= <-]. exists []. repeat split. unfold slice_to. simpl.
    by destruct (0 <=? n)%Z; rewrite take_nil.
  - destruct (score_articles q (a :: arts)) as [items|]; [|done]. simpl.
    unfold list_sort_reverse. fold claps_is_int.
    destruct (forallb claps_is_int (similar_items items)) eqn:Hc; [|done].
    simpl. intros [= <-]. eauto.
Qed.

Lemma similar_items_spec items item :
  item ∈ similar_items items ↔ item ∈ items ∧ (0 < s_similarity item)%Q.
Proof.
  unfold similar_items. rewrite !list_elem_of_In, List.filter_In.
  unfold Qlt_bool. rewrite Qlt_alt.
  destruct (0 ?= s_similarity item)%Q; split; intros [Hin H];
    (split; [exact Hin|]); done.
Qed.

Lemma format_result_claps q arts items item :
  Forall2 (scored_from q) arts items → item ∈ items →
  r_claps (format_result item) = s_claps item.
Proof.
  intros H Hin. apply list_elem_of_lookup in Hin as [i Hi].
  destruct (Forall2_lookup_r _ _ _ _ _ H Hi) as (a & _ & Ha & _ & Hc).
  simpl. by rewrite Ha, Hc.
Qed.

Lemma has_key_positive k item :
  has_key k item = true → Qlt_bool 0 (s_similarity item) = Qlt_bool 0 k.1.
Proof.
  unfold has_key, Qlt_bool. intros [H _]%andb_prop.
  apply Qeq_bool_iff in H. by rewrite H.
Qed.

Lemma similar_items_keyed k items :
  List.filter (has_key k) (similar_items items) =
  if Qlt_bool 0 k.1 then List.filter (has_key k) items else [].
Proof.
  unfold similar_items. induction items as [|x items IH]; simpl.
  - by destruct (Qlt_bool 0 k.1).
  - destruct (has_key k x) eqn:Hk.
    + rewrite (has_key_positive _ _ Hk).
      destruct (Qlt_bool 0 k.1); [|done]. simpl. by rewrite Hk, IH.
    + destruct (Qlt_bool 0 (s_similarity x)); simpl; [by rewrite Hk|]; done.
Qed.

Lemma sorting_total items :
  forallb claps_is_int items = true → list_sort_reverse items = Ok (sort_desc items).
Proof. unfold list_sort_reverse. fold claps_is_int. by intros ->. Qed.

Lemma find_similar_articles_total q arts n :
  Forall (λ a, well_typed a = true) arts →
  ∃ results, find_similar_articles q arts n = Ok results.
Proof.
  intros Hty. unfold find_similar_articles. destruct arts as [|a arts]; [eauto|].
  destruct (score_articles_total q (a :: arts)) as [items Hitems].
  { eapply Forall_impl; [done|]. by intros ? [? _]%andb_prop. }
  rewrite Hitems. cbn [mbind result_bind].
  rewrite sorting_total; [simpl; eauto|].
  apply forallb_forall. intros item [Hin _]%List.filter_In.
  apply list_elem_of_In, list_elem_of_lookup in Hin as [i Hi].
  destruct (Forall2_lookup_r _ _ _ _ _ (score_articles_inv _ _ _ Hitems) Hi)
    as (b & Hb & _ & _ & Hc).
  apply (Forall_lookup_1 _ _ _ _ Hty) in Hb. apply andb_prop in Hb as [_ Hb].
  unfold claps_is_int. rewrite Hc. unfold dict_get.
  by destruct (b !! "claps") as [[]|].
Qed.

Lemma similar_items_none items :
  Forall (λ item, (s_similarity item <= 0)%Q) items → similar_items items = [].
Proof.
  unfold similar_items. induction 1 as [|x items Hx _ IH]; [done|].
  simpl. rewrite IH. unfold Qlt_bool.
  destruct (0 ?= s_similarity x)%Q eqn:Hc; try done.
  apply Qlt_alt in Hc. by apply Qlt_not_le in Hc.
Qed.

Lemma nothing_similar q arts items :
  score_articles q arts = Ok items →
  Forall (λ item, (s_similarity item <= 0)%Q) items →
  find_similar_articles q arts 10 = Ok [].
Proof.
  intros Hitems Hall. unfold find_similar_articles.
  destruct arts as [|a arts]; [done|]. rewrite Hitems. cbn [mbind result_bind].
  by rewrite (similar_items_none _ Hall).
Qed.

Lemma score_articles_raises q arts :
  Exists (λ a, text_fields_ok a = false) arts →
  score_articles q arts = Raise TypeError.
Proof.
  induction 1 as [a arts Ha | a arts _ IH]; cbn [score_articles];
    rewrite calculate_similarity_eq.
  - by rewrite Ha.
  - destruct (text_fields_ok a); [|done]. cbn [mbind result_bind]. by rewrite IH.
Qed.

(** ** The endpoints *)

Lemma search_articles_with_query d raw f :
  d !! "query" = Some (PStr raw) → strip raw ≠ "" →
  search_articles (Ok (JDict d)) f =
  match run_search (strip raw) f with
  | Ok r => r
  | Raise e => Response 500 (ErrorOf e)
  end.
Proof.
  intros Hd Hq. unfold search_articles. cbn [mbind result_bind json_truthy].
  assert (d ≠ ∅) as Hne by (intros ->; by rewrite lookup_empty in Hd).
  rewrite (bool_decide_eq_false_2 _ Hne). cbn [negb].
  unfold query_of, dict_get. rewrite Hd.
  cbn [default from_option id mbind result_bind].
  by rewrite (proj2 (String.eqb_neq _ _) Hq).
Qed.

Lemma search_articles_get_with_query raw f :
  strip raw ≠ "" → search_articles_get (Some raw) f = run_search (strip raw) f.
Proof.
  intros Hq. unfold search_articles_get.
  change (default "" (Some raw)) with raw.
  by rewrite (proj2 (String.eqb_neq _ _) Hq).
Qed.

(** ** Scenarios of the specification *)

(** A query of two-letter words has no token. *)
Example short_words_no_token : word_set "ai ml" = ∅.
Proof. vm_compute. reflexivity. Qed.

(** The article whose keywords match ranks first despite fewer claps. *)
Example keyword_match_ranks_first :
  find_similar_articles "machine learning" [popular_article; keyword_article] 10
  = Ok [Summary (PStr "") (PStr "") (PInt 500) (1000 # 1000);
        Summary (PStr "") (PStr "") (PInt 10000) (200 # 1000)].
Proof. vm_compute. reflexivity. Qed.

(** With equal similarity the article with more claps comes first. *)
Example more_claps_first :
  find_similar_articles "machine learning" [claps_article 50; claps_article 200] 10
  = Ok [Summary (PStr "") (PStr "") (PInt 200) (333 # 1000);
        Summary (PStr "") (PStr "") (PInt 50) (333 # 1000)].
Proof. vm_compute. reflexivity. Qed.

(** * The claims *)

(** C1 fails as stated.  The boost is counted over the lowered keyword text,
    not over the field as stored: against the keywords [MACHINE] the query
    [machine learning] scores 1/2 + 1/10, while the stored field, which holds
    no lower-case word, would leave the score at 1/2. *)
Lemma raw_keyword_mismatch :
  ∃ s,
    calculate_similarity "machine learning" (PStr "MACHINE") upper_keywords = Ok s
    ∧ (s == 6 # 10)%Q
    ∧ ¬ (s == Qmin (jaccard (word_set "machine learning")
                           (word_set (article_concat upper_keywords))
                    + keyword_boost (word_set "machine learning")
                                    (field_text upper_keywords "keywords")) 1)%Q.
Proof.
  exists (12 # 20)%Q. split; [vm_compute; reflexivity|].
  split; [reflexivity|]. vm_compute. discriminate.
Qed.

(** C1, amended: the score is min(base + boost, 1), where base is the
    Jaccard similarity of the word set of the query and the word set of the
    text, title, subtitle and keywords joined by blanks (0 when the query has
    no word or the union is empty), and boost is a tenth for every distinct
    query word that occurs inside the lowered keyword field, when that field
    is not empty.  The scorer returns no score only for a record with a text
    field that holds something else than text. *)
Theorem similarity_formula text keywords article :
  match calculate_similarity text keywords article with
  | Ok s =>
      (s == Qmin (jaccard (word_set text) (word_set (article_concat article))
                  + keyword_boost (word_set text)
                                  (lower (field_text article "keywords"))) 1)%Q
  | Raise _ => text_fields_ok article = false
  end.
Proof.
  rewrite calculate_similarity_eq.
  destruct (text_fields_ok article); [apply overlap_score_formula | done].
Qed.

(** C2: every score the scorer returns lies in the closed interval from 0
    to 1, whatever the fields of the record hold; it returns no score only
    for a record with a text field that holds something else than text. *)
Theorem similarity_in_unit_interval text keywords article :
  match calculate_similarity text keywords article with
  | Ok s => (0 <= s)%Q ∧ (s <= 1)%Q
  | Raise _ => text_fields_ok article = false
  end.
Proof.
  rewrite calculate_similarity_eq.
  destruct (text_fields_ok article); [apply overlap_score_bounds | done].
Qed.




(** C4 fails as stated.  The list is sorted by the unrounded similarity and
    rounded afterwards: similarities 1/34 and 1/35 both show as 0.029, the
    article with 1 clap stays ahead of the one with 100. *)
Lemma rounded_scores_hide_order :
  find_similar_articles long_query [short_article; longer_article] 10
  = Ok [Summary (PStr "") (PStr "") (PInt 1) (29 # 1000);
        Summary (PStr "") (PStr "") (PInt 100) (29 # 1000)]
  ∧ ¬ ranks_before (29 # 1000) 1 (29 # 1000) 100.
Proof.
  split; [vm_compute; reflexivity|].
  unfold ranks_before. intros [H | [_ H]].
  - vm_compute in H. discriminate.
  - lia.
Qed.

(** C4, amended: the results are the summaries of the slice [[:top_n]] of a
    ranking of the scored articles.  The scored articles are the ones the
    scoring loop makes of the articles handed in, each with the similarity
    [calculate_similarity] gives it; the ranking is an arrangement of those
    with a similarity above 0.  In the ranking every item and its successor
    are ordered by that unrounded similarity, larger first, and by claps,
    larger first, where the similarities are equal; the rounded scores of
    the summaries never increase along the list. *)
Theorem ranking_order q arts n results :
  find_similar_articles q arts n = Ok results →
  ∃ items top_articles,
    score_articles q arts = Ok items
    ∧ Forall2 (scored_from q) arts items
    ∧ (∃ ranked, ranked ≡ₚ similar_items items ∧ top_articles = slice_to ranked n)
    ∧ results = format_result <$> top_articles
    ∧ ∀ i x y,
        top_articles !! i = Some x → top_articles !! S i = Some y →
        ranks_before (s_similarity x) (claps_of (r_claps (format_result x)))
                     (s_similarity y) (claps_of (r_claps (format_result y)))
        ∧ r_similarity_score (format_result x) = py_round (s_similarity x) 3
        ∧ r_similarity_score (format_result y) = py_round (s_similarity y) 3
        ∧ (r_similarity_score (format_result y)
           <= r_similarity_score (format_result x))%Q.
Proof.
  intros (items & Hscore & _ & ->)%find_similar_articles_inv.
  pose proof (score_articles_inv _ _ _ Hscore) as Hitems.
  exists items, (slice_to (sort_desc (similar_items items)) n).
  split; [done|]. split; [done|].
  split; [exists (sort_desc (similar_items items)); split;
          [apply sort_desc_perm | done]|].
  split; [done|]. intros i x y Hx Hy.
  pose proof (slice_to_prefix (sort_desc (similar_items items)) n) as Hpre.
  pose proof (prefix_lookup _ _ _ _ Hpre Hx) as Hx'.
  pose proof (prefix_lookup _ _ _ _ Hpre Hy) as Hy'.
  pose proof (sorted_adjacent _ _ _ _ _ (sort_desc_sorted _) Hx' Hy') as Hge.
  assert (∀ z j, sort_desc (similar_items items) !! j = Some z →
                 r_claps (format_result z) = s_claps z) as Hclaps.
  { intros z j Hz. apply (format_result_claps q arts items); [done|].
    apply list_elem_of_lookup_2 in Hz. rewrite sort_desc_perm in Hz.
    by apply similar_items_spec in Hz as [? _]. }
  rewrite (Hclaps _ _ Hx'), (Hclaps _ _ Hy').
  pose proof (key_ge_ranks _ _ Hge) as Hr.
  split; [done|]. split; [done|]. split; [done|].
  apply py_round_mono. destruct Hr as [Hr | [Hr _]]; [by apply Qlt_le_weak|].
  rewrite Hr. apply Qle_refl.
Qed.

(** [ranking_order] at a ranking of two articles. *)
Lemma ranking_order_witness :
  ∃ results items top_articles,
    find_similar_articles "abc" [abc_article 1; abc_article 2] 10 = Ok results
    ∧ score_articles "abc" [abc_article 1; abc_article 2] = Ok items
    ∧ results = format_result <$> top_articles.
Proof.
  assert (find_similar_articles "abc" [abc_article 1; abc_article 2] 10
          = Ok [Summary (PStr "") (PStr "") (PInt 2) (1000 # 1000);
                Summary (PStr "") (PStr "") (PInt 1) (1000 # 1000)]) as H
    by (vm_compute; reflexivity).
  destruct (ranking_order _ _ _ _ H) as (items & top & Hitems & _ & _ & Htop & _).
  eexists. exists items, top. split; [exact H|]. split; [exact Hitems | exact Htop].
Defined.




(** The similarity that decides whether an article is kept is the unrounded
    one: a similarity of 1/2001, which is above 0, is shown as 0 in the
    summary. *)
Example tiny_similarity_shown_as_zero :
  Qlt_bool 0 (1 # 2001) = true ∧ py_round (1 # 2001) 3 = (0 # 1000)%Q.
Proof. split; reflexivity. Qed.

(** C6 fails as stated: the stored number can be negative.  A row whose
    claps column reads [-5] is stored with -5. *)
Lemma negative_claps_kept :
  ∃ article z,
    load_articles (Opened (NextRow negative_row EndOfFile)) = Ok [article]
    ∧ article !! "claps" = Some (PInt z)
    ∧ (z < 0)%Z.
Proof.
  exists (<["claps" := PInt (-5)]> negative_row), (-5)%Z.
  split; [vm_compute; reflexivity|].
  split; [vm_compute; reflexivity | lia].
Qed.

(** C6, amended: every row the reader hands out becomes one article, in
    order, whose claps field is an integer: what [int] reads from the row's
    claps text when that succeeds, and 0 when the row has no claps, the value
    is [None] or empty, or it does not read as an integer.  The conversion
    raises nothing and drops no row. *)
Theorem claps_coerced rd :
  load_articles (Opened rd) = Ok (with_claps <$> rows_read rd)
  ∧ ∀ row,
      convert_claps row = Ok (with_claps row)
      ∧ with_claps row !! "claps" = Some (PInt (claps_value row))
      ∧ (row !! "claps" = None ∨ row !! "claps" = Some PNone
         ∨ row !! "claps" = Some (PStr "") → claps_value row = 0%Z)
      ∧ (∀ s z, row !! "claps" = Some (PStr s) → int_of_str s = Some z →
                claps_value row = z)
      ∧ (∀ s, row !! "claps" = Some (PStr s) → int_of_str s = None →
              claps_value row = 0%Z).
Proof.
  split; [apply load_articles_opened|]. intros row.
  split; [apply convert_claps_eq|]. split; [apply with_claps_lookup|].
  unfold claps_value. split; [|split].
  - by intros [-> | [-> | ->]].
  - by intros s z -> ->.
  - by intros s -> ->.
Qed.

(** C7 fails as stated: a failure in the middle of the file leaves the rows
    read so far in the list that is returned.  One good row followed by a
    read error gives a list of one article, not the empty list. *)
Lemma partial_load_returned :
  read_fails (NextRow plain_row (ReadError CsvError)) = true
  ∧ load_articles (Opened (NextRow plain_row (ReadError CsvError)))
    = Ok [<["claps" := PInt 12]> plain_row]
  ∧ load_articles (Opened (NextRow plain_row (ReadError CsvError))) ≠ Ok [].
Proof.
  split; [reflexivity|].
  assert (load_articles (Opened (NextRow plain_row (ReadError CsvError)))
          = Ok [<["claps" := PInt 12]> plain_row]) as H
    by (vm_compute; reflexivity).
  split; [done|]. by rewrite H.
Qed.

(** C7, amended: [load_articles] never raises.  It returns the empty list
    when the file does not exist or cannot be opened, and otherwise the
    articles of the rows read before the end of the file or before the first
    failure, which is caught. *)
Theorem load_articles_never_raises f :
  ∃ articles,
    load_articles f = Ok articles
    ∧ match f with
      | Missing | OpenError _ => articles = []
      | Opened rd => articles = with_claps <$> rows_read rd
      end.
Proof.
  destruct f as [|e|rd]; [by exists [] | by exists [] |].
  eexists. split; [apply load_articles_opened | done].
Qed.

(** C8 fails as stated: when articles are loaded and none of them matches,
    both endpoints answer with a success response that carries an empty
    result list.  The query [zzz] against a file with one article about
    something else is answered with status 200. *)
Lemma unmatched_query_succeeds :
  strip "zzz" ≠ ""
  ∧ (∃ articles items,
       load_articles hello_file = Ok articles
       ∧ score_articles "zzz" articles = Ok items
       ∧ Forall (λ item, (s_similarity item <= 0)%Q) items)
  ∧ search_articles (Ok (JDict {["query" := PStr "zzz"]})) hello_file
    = Response 200 (SearchResults "zzz" 1 0 [])
  ∧ search_articles_get (Some "zzz") hello_file
    = Ok (Response 200 (SearchResults "zzz" 1 0 [])).
Proof.
  split; [by vm_compute|]. split; [|split; vm_compute; reflexivity].
  exists [<["claps" := PInt 0]> hello_article],
         [Scored (<["claps" := PInt 0]> hello_article) (0 # 3) (PInt 0)].
  split; [vm_compute; reflexivity|].
  split; [vm_compute; reflexivity|].
  constructor; [|constructor]. simpl. discriminate.
Qed.

(** C8, amended: for a query that is not empty, both endpoints answer with
    the not-found response and its message when no article at all is loaded;
    when articles are loaded and none of them has a similarity above 0, they
    answer with a success response whose result list is empty. *)
Theorem not_found_only_without_articles raw d f articles :
  d !! "query" = Some (PStr raw) → strip raw ≠ "" →
  load_articles f = Ok articles →
  (articles = [] →
     search_articles (Ok (JDict d)) f
     = Response 404 (NoArticles no_articles_message [])
     ∧ search_articles_get (Some raw) f
       = Ok (Response 404 (NoArticles no_articles_message [])))
  ∧ (articles ≠ [] →
     ∀ items, score_articles (strip raw) articles = Ok items →
       Forall (λ item, (s_similarity item <= 0)%Q) items →
       search_articles (Ok (JDict d)) f
       = Response 200 (SearchResults (strip raw) (length articles) 0 [])
       ∧ search_articles_get (Some raw) f
         = Ok (Response 200 (SearchResults (strip raw) (length articles) 0 []))).
Proof.
  intros Hd Hq Hload.
  rewrite (search_articles_with_query d raw f Hd Hq).
  rewrite (search_articles_get_with_query raw f Hq).
  unfold run_search. rewrite Hload. cbn [mbind result_bind]. split.
  - by intros ->.
  - intros Hne items Hitems Hall.
    rewrite (nothing_similar _ _ _ Hitems Hall).
    by destruct articles.
Qed.

(** [not_found_only_without_articles] at a query sent while the file is
    missing. *)
Lemma not_found_only_without_articles_witness :
  ({["query" := PStr " zzz "]} : gmap string pyval) !! "query" = Some (PStr " zzz ")
  ∧ strip " zzz " ≠ ""
  ∧ load_articles Missing = Ok []
  ∧ search_articles (Ok (JDict {["query" := PStr " zzz "]})) Missing
    = Response 404 (NoArticles no_articles_message [])
  ∧ search_articles_get (Some " zzz ") Missing
    = Ok (Response 404 (NoArticles no_articles_message [])).
Proof.
  assert (({["query" := PStr " zzz "]} : gmap string pyval) !! "query"
          = Some (PStr " zzz ")) as Hd by (vm_compute; reflexivity).
  assert (strip " zzz " ≠ "") as Hq by (by vm_compute).
  assert (load_articles Missing = Ok []) as Hload by reflexivity.
  split; [exact Hd|]. split; [exact Hq|]. split; [exact Hload|].
  exact (proj1 (not_found_only_without_articles _ _ _ _ Hd Hq Hload) eq_refl).
Defined.

(** C9: scored items with the same key (similarity, claps) come out in the
    order in which their articles came in: for every key, the results with
    that key are the summaries of a prefix of the input items with that
    key. *)
Theorem ranking_stable q arts n results :
  find_similar_articles q arts n = Ok results →
  ∃ items top_articles,
    score_articles q arts = Ok items
    ∧ s_article <$> items = arts
    ∧ results = format_result <$> top_articles
    ∧ ∀ k, List.filter (has_key k) top_articles
             `prefix_of` List.filter (has_key k) items.
Proof.
  intros (items & Hitems & _ & ->)%find_similar_articles_inv.
  exists items, (slice_to (sort_desc (similar_items items)) n).
  split; [done|].
  split; [by apply (scored_articles_of q), score_articles_inv|].
  split; [done|]. intros k.
  etrans; [apply filter_prefix, slice_to_prefix|].
  rewrite sort_desc_stable, similar_items_keyed.
  destruct (Qlt_bool 0 k.1); [done | apply prefix_nil].
Qed.

(** [ranking_stable] at two articles with the same key. *)
Lemma ranking_stable_witness :
  ∃ results items,
    find_similar_articles "abc" [abc_article 7; abc_article 7] 10 = Ok results
    ∧ s_article <$> items = [abc_article 7; abc_article 7].
Proof.
  assert (find_similar_articles "abc" [abc_article 7; abc_article 7] 10
          = Ok [Summary (PStr "") (PStr "") (PInt 7) (1000 # 1000);
                Summary (PStr "") (PStr "") (PInt 7) (1000 # 1000)]) as H
    by (vm_compute; reflexivity).
  destruct (ranking_stable _ _ _ _ H) as (items & top & _ & Harts & _).
  eexists. exists items. split; [exact H | exact Harts].
Defined.

(** C10 fails on the code.  A row shorter than the header reaches the scorer
    with [None] in the columns it lacks, and [article.get('text', '')] hands
    that [None] on: the concatenation raises [TypeError], for every query and
    every [top_n], as soon as one article holds [None] in one of the four
    text fields.  The loader's own conversion of [claps] accepts the same
    [None] and stores 0.  The row [https://example.org/a,Cut short] under a
    header of six columns is loaded, breaks the scoring and with it both
    search handlers, while the record that lacks the four columns is scored
    and shown with the defaults. *)
Theorem none_field_breaks_scoring :
  (∀ q arts n a,
     a ∈ arts →
     a !! "text" = Some PNone ∨ a !! "title" = Some PNone
     ∨ a !! "subtitle" = Some PNone ∨ a !! "keywords" = Some PNone →
     find_similar_articles q arts n = Raise TypeError)
  ∧ load_articles (Opened (NextRow cut_row EndOfFile))
    = Ok [<["claps" := PInt 0]> cut_row]
  ∧ calculate_similarity "short" PNone (<["claps" := PInt 0]> cut_row)
    = Raise TypeError
  ∧ find_similar_articles "short" [<["claps" := PInt 0]> cut_row] 10
    = Raise TypeError
  ∧ search_articles (Ok (JDict {["query" := PStr "short"]}))
      (Opened (NextRow cut_row EndOfFile))
    = Response 500 (ErrorOf TypeError)
  ∧ search_articles_get (Some "short") (Opened (NextRow cut_row EndOfFile))
    = Raise TypeError
  ∧ find_similar_articles "short" [bare_row] 10
    = Ok [Summary (PStr "https://example.org/a") (PStr "Cut short") (PInt 0)
            (500 # 1000)].
Proof.
  split.
  { intros q arts n a Ha Hnone.
    assert (text_fields_ok a = false) as Hbad.
    { unfold text_fields_ok.
      destruct Hnone as [H | [H | [H | H]]]; rewrite H; simpl;
        by rewrite ?andb_false_r. }
    unfold find_similar_articles. destruct arts as [|b arts].
    - by apply elem_of_nil in Ha.
    - rewrite (score_articles_raises q (b :: arts)); [done|].
      apply Exists_exists. by exists a. }
  repeat split; vm_compute; reflexivity.
Qed.

(** * Further properties

    ** Words *)

Lemma string_length_of_list l : String.length (string_of_list_ascii l) = length l.
Proof. induction l as [|c l IH]; simpl; [done | by rewrite IH]. Qed.

Lemma lower_char_is_lower c : is_alpha c = true → is_lower (lower_char c) = true.
Proof. destruct c as [[] [] [] [] [] [] [] []]; (reflexivity || discriminate). Qed.

Lemma lower_char_idemp c : lower_char (lower_char c) = lower_char c.
Proof. destruct c as [[] [] [] [] [] [] [] []]; reflexivity. Qed.

Lemma lower_idemp s : lower (lower s) = lower s.
Proof. induction s as [|c s IH]; simpl; [done|]. by rewrite lower_char_idemp, IH. Qed.

Lemma lower_app a b : lower (a +:+ b) = lower a +:+ lower b.
Proof. induction a as [|c a IH]; simpl; [done | by rewrite IH]. Qed.

Lemma word_set_elem s w :
  w ∈ word_set s ↔
  ∃ r, w = lowered r ∧ is_token r = true
       ∧ r ∈ runs is_word (list_ascii_of_string s).
Proof.
  unfold word_set. rewrite findall_words_lower, elem_of_list_to_set, list_elem_of_fmap.
  split; intros (r & -> & Hr); exists r; (split; [done|]).
  - apply list_elem_of_In, List.filter_In in Hr as [Hr Ht].
    split; [done | by apply list_elem_of_In].
  - destruct Hr as [Ht Hr]. apply list_elem_of_In, List.filter_In.
    split; [by apply list_elem_of_In | done].
Qed.

Lemma word_set_lower s : word_set (lower s) = word_set s.
Proof. unfold word_set. by rewrite lower_idemp. Qed.

(** Every word the scorer works with has at least three characters, all of
    them lower-case letters. *)
Theorem word_set_shape s w :
  w ∈ word_set s →
  (3 ≤ String.length w)%nat
  ∧ Forall (λ c, is_lower c = true) (list_ascii_of_string w).
Proof.
  intros (r & -> & [Ha Hl]%andb_prop & _)%word_set_elem. unfold lowered. split.
  - rewrite string_length_of_list, length_fmap. by apply Nat.leb_le.
  - rewrite list_ascii_of_string_of_list_ascii. apply Forall_fmap, Forall_forall.
    intros c Hc. apply lower_char_is_lower.
    by apply (proj1 (forallb_forall _ _) Ha), list_elem_of_In.
Qed.

Lemma word_set_shape_witness :
  "learning" ∈ word_set "Machine LEARNING"
  ∧ (3 ≤ String.length "learning")%nat.
Proof.
  assert ("learning" ∈ word_set "Machine LEARNING") as H
    by (vm_compute; reflexivity).
  split; [exact H|]. exact (proj1 (word_set_shape _ _ H)).
Defined.

(** ** The scorer *)

Lemma field_text_lower_fields article k :
  field_text (lower_fields article) k = lower (field_text article k).
Proof.
  unfold field_text, lower_fields. rewrite lookup_fmap.
  by destruct (article !! k) as [[]|].
Qed.

Lemma text_or_absent_lower_fields (article : gmap string pyval) k :
  text_or_absent (lower_fields article !! k) = text_or_absent (article !! k).
Proof.
  unfold lower_fields. rewrite lookup_fmap. by destruct (article !! k) as [[]|].
Qed.

Lemma article_concat_lower_fields article :
  article_concat (lower_fields article) = lower (article_concat article).
Proof.
  unfold article_concat. by rewrite !field_text_lower_fields, !lower_app.
Qed.

(** The score does not depend on the case of the letters, neither in the
    query nor in the fields of the record. *)
Theorem similarity_ignores_case text keywords article :
  calculate_similarity (lower text) keywords (lower_fields article)
  = calculate_similarity text keywords article.
Proof.
  rewrite !calculate_similarity_eq. unfold text_fields_ok.
  rewrite !text_or_absent_lower_fields, article_concat_lower_fields.
  by rewrite field_text_lower_fields, !word_set_lower, lower_idemp.
Qed.

Lemma slice_to_nil {A} n : slice_to (@nil A) n = [].
Proof. unfold slice_to. destruct (0 <=? n)%Z; apply take_nil. Qed.

(** A query without a word of three letters scores 0 against every record
    and is answered with the empty list, whatever the articles are. *)
Theorem tokenless_query_matches_nothing q arts n results :
  word_set q = ∅ →
  find_similar_articles q arts n = Ok results →
  results = []
  ∧ ∀ a keywords s, calculate_similarity q keywords a = Ok s → s = 0%Q.
Proof.
  intros Hq Hfind.
  assert (∀ a keywords s, calculate_similarity q keywords a = Ok s → s = 0%Q) as Hzero.
  { intros a keywords s. rewrite calculate_similarity_eq, Hq.
    destruct (text_fields_ok a); [|done]. by intros [= <-]. }
  split; [|done].
  apply find_similar_articles_inv in Hfind as (items & Hitems & _ & ->).
  rewrite similar_items_none; [simpl; by rewrite slice_to_nil|].
  apply score_articles_inv in Hitems.
  apply Forall_forall. intros item Hin.
  apply list_elem_of_lookup in Hin as [i Hi].
  destruct (Forall2_lookup_r _ _ _ _ _ Hitems Hi) as (a & _ & _ & Hs & _).
  by rewrite (Hzero _ _ _ Hs).
Qed.

Lemma tokenless_query_matches_nothing_witness :
  word_set "ai ml" = ∅
  ∧ find_similar_articles "ai ml" [abc_article 1] 10 = Ok [].
Proof.
  assert (word_set "ai ml" = ∅) as Hq by (vm_compute; reflexivity).
  assert (find_similar_articles "ai ml" [abc_article 1] 10 = Ok []) as H
    by (vm_compute; reflexivity).
  split; [exact Hq|].
  destruct (tokenless_query_matches_nothing _ _ _ _ Hq H) as [_ _]. exact H.
Defined.

Lemma Qmin_one_pos a : (0 < Qmin a 1)%Q ↔ (0 < a)%Q.
Proof.
  destruct (Q.min_spec a 1) as [[H ->] | [H ->]]; [done|].
  split; [intros _; eapply Qlt_le_trans; [|exact H]; reflexivity | reflexivity].
Qed.

Lemma set_size_pos (X : gset string) : (0 < size X)%nat ↔ ∃ w, w ∈ X.
Proof.
  split.
  - intros H. apply size_pos_elem_of. lia.
  - intros [w Hw]. destruct (size X) eqn:E; [|lia].
    apply size_empty_iff in E. by apply E in Hw.
Qed.

Lemma overlap_score_pos X Y kw :
  (∀ w, w ∈ X → w ≠ "") →
  (0 < overlap_score X Y kw)%Q ↔
  (∃ w, w ∈ X ∧ w ∈ Y) ∨ (∃ w, w ∈ X ∧ str_contains kw w = true).
Proof.
  intros Hne. unfold overlap_score.
  pose proof (left_le_union X Y) as HXU.
  destruct (size X =? 0)%nat eqn:HX.
  - apply Nat.eqb_eq, size_empty_iff in HX. split; [done|].
    intros [(w & Hw & _) | (w & Hw & _)]; by apply HX in Hw.
  - apply Nat.eqb_neq in HX.
    destruct (size (X ∪ Y) =? 0)%nat eqn:HU; [apply Nat.eqb_eq in HU; lia|].
    apply Nat.eqb_neq in HU. rewrite Qmin_one_pos.
    set (i := size (X ∩ Y)).
    set (km := size (filter (λ word, Is_true (str_contains kw word)) X)).
    assert ((0 < i)%nat ↔ ∃ w, w ∈ X ∧ w ∈ Y) as Hi.
    { unfold i. rewrite set_size_pos. by setoid_rewrite elem_of_intersection. }
    assert ((0 < km)%nat ↔ ∃ w, w ∈ X ∧ str_contains kw w = true) as Hk.
    { unfold km. rewrite set_size_pos. setoid_rewrite elem_of_filter.
      setoid_rewrite Is_true_true. split; intros (w & ? & ?); eauto. }
    destruct (ratio_bounds i (size (X ∪ Y))) as [Hlo _];
      [apply inter_le_union | lia |].
    assert ((0 < Q_of_nat i / Q_of_nat (size (X ∪ Y)))%Q ↔ (0 < i)%nat) as Hratio.
    { split; [|intros; apply ratio_pos; lia].
      intros Hpos. destruct i; [|lia]. exfalso.
      unfold Q_of_nat in Hpos. simpl in Hpos. unfold Qdiv in Hpos.
      rewrite Qmult_0_l in Hpos. by apply Qlt_irrefl in Hpos. }
    destruct (String.eqb_spec kw "") as [->|Hkw]; cbn [negb].
    + rewrite Hratio, Hi. split; [by left|].
      intros [H | (w & Hw & Hc)]; [done|].
      exfalso. apply (Hne w Hw). destruct w; [done|].
      unfold str_contains in Hc. simpl in Hc. discriminate.
    + destruct (0 <? km)%nat eqn:Hkm.
      * apply Nat.ltb_lt in Hkm. split; [intros _; right; by apply Hk|].
        intros _. pose proof (Q_of_nat_pos km Hkm). nra.
      * apply Nat.ltb_ge in Hkm. rewrite Hratio, Hi. split; [by left|].
        intros [H | H]; [done|]. apply Hk in H. lia.
Qed.

(** A record has a similarity above 0, and so can be returned, exactly when
    it shares a word with the query or a word of the query occurs inside its
    lowered keyword text. *)
Theorem similarity_positive_iff text keywords article s :
  calculate_similarity text keywords article = Ok s →
  (0 < s)%Q ↔
  (∃ w, w ∈ word_set text ∧ w ∈ word_set (article_concat article))
  ∨ (∃ w, w ∈ word_set text
          ∧ str_contains (lower (field_text article "keywords")) w = true).
Proof.
  rewrite calculate_similarity_eq. destruct (text_fields_ok article); [|done].
  intros [= <-]. apply overlap_score_pos.
  intros w (r & -> & Hr & _)%word_set_elem.
  apply is_token_length in Hr. unfold lowered.
  destruct r; [simpl in Hr; lia | done].
Qed.

Lemma similarity_positive_iff_witness :
  calculate_similarity "machine" PNone upper_keywords = Ok 1%Q
  ∧ ∃ w, w ∈ word_set "machine" ∧ w ∈ word_set (article_concat upper_keywords).
Proof.
  assert (calculate_similarity "machine" PNone upper_keywords = Ok 1%Q) as H
    by (vm_compute; reflexivity).
  split; [exact H|].
  destruct (proj1 (similarity_positive_iff _ _ _ _ H) eq_refl) as [Hw | (w & Hw & _)].
  - exact Hw.
  - exists "machine". split; vm_compute; reflexivity.
Defined.

(** ** The ranker *)

Lemma results_length_le q arts n results :
  find_similar_articles q arts n = Ok results →
  (length results ≤ length arts)%nat.
Proof.
  intros (items & Hitems & _ & ->)%find_similar_articles_inv.
  apply score_articles_inv in Hitems.
  rewrite length_fmap, (Forall2_length _ _ _ Hitems).
  etrans; [apply prefix_length, slice_to_prefix|].
  rewrite (Permutation_length (sort_desc_perm _)).
  unfold similar_items. apply List.filter_length_le.
Qed.

Lemma py_round_unit s :
  (0 <= s)%Q → (s <= 1)%Q → (0 <= py_round s 3)%Q ∧ (py_round s 3 <= 1)%Q.
Proof.
  intros H0 H1. split.
  - apply (Qle_trans _ (py_round 0 3)); [discriminate | by apply py_round_mono].
  - apply (Qle_trans _ (py_round 1 3)); [by apply py_round_mono | discriminate].
Qed.

Lemma slice_to_sublist {A} (l : list A) n x : x ∈ slice_to l n → x ∈ l.
Proof.
  intros Hx. destruct (slice_to_prefix l n) as [k Hk]. rewrite Hk.
  apply elem_of_app. by left.
Qed.

Lemma slice_to_mono {A} (l : list A) k m :
  (0 <= k <= m)%Z → slice_to l k `prefix_of` slice_to l m.
Proof.
  intros [Hk Hm]. unfold slice_to.
  rewrite (proj2 (Z.leb_le 0 k) Hk), (proj2 (Z.leb_le 0 m)) by lia.
  exists (take (Z.to_nat m - Z.to_nat k) (drop (Z.to_nat k) l)).
  rewrite <- (take_drop (Z.to_nat k) (take (Z.to_nat m) l)) at 1.
  rewrite take_take, Nat.min_l by lia. f_equal.
  by rewrite skipn_firstn_comm.
Qed.

(** Every result is the summary of one of the articles handed in (its url,
    title and claps, with the defaults for what the article lacks), carries
    a score from 0 to 1, and there are no more results than articles. *)
Theorem results_from_articles q arts n results :
  find_similar_articles q arts n = Ok results →
  (length results ≤ length arts)%nat
  ∧ Forall (λ r,
      (0 <= r_similarity_score r)%Q ∧ (r_similarity_score r <= 1)%Q
      ∧ ∃ a, a ∈ arts
             ∧ r_url r = dict_get a "url" (PStr "")
             ∧ r_title r = dict_get a "title" (PStr "")
             ∧ r_claps r = dict_get a "claps" (PInt 0)) results.
Proof.
  intros Hfind. split; [by apply (results_length_le q arts n)|].
  apply find_similar_articles_inv in Hfind as (items & Hitems & _ & ->).
  apply score_articles_inv in Hitems.
  - apply Forall_fmap, Forall_forall. intros item Hin.
    apply slice_to_sublist in Hin. rewrite sort_desc_perm in Hin.
    apply similar_items_spec in Hin as [Hin _].
    apply list_elem_of_lookup in Hin as [i Hi].
    destruct (Forall2_lookup_r _ _ _ _ _ Hitems Hi) as (a & Ha & Hart & Hs & _).
    pose proof Hs as Hs'. rewrite calculate_similarity_eq in Hs'.
    destruct (text_fields_ok a); [|done]. injection Hs' as Hs'.
    destruct (overlap_score_bounds (word_set q) (word_set (article_concat a))
                (lower (field_text a "keywords"))) as [H0 H1].
    rewrite Hs' in H0, H1.
    destruct (py_round_unit _ H0 H1) as [R0 R1]. simpl.
    split; [done|]. split; [done|].
    exists a. rewrite Hart. split; [by eapply list_elem_of_lookup_2 | done].
Qed.

Lemma results_from_articles_witness :
  ∃ results,
    find_similar_articles "abc" [abc_article 1; abc_article 2] 10 = Ok results
    ∧ (length results ≤ 2)%nat.
Proof.
  assert (find_similar_articles "abc" [abc_article 1; abc_article 2] 10
          = Ok [Summary (PStr "") (PStr "") (PInt 2) (1000 # 1000);
                Summary (PStr "") (PStr "") (PInt 1) (1000 # 1000)]) as H
    by (vm_compute; reflexivity).
  eexists. split; [exact H|].
  exact (proj1 (results_from_articles _ _ _ _ H)).
Defined.

(** Asking for more results only appends: for 0 ≤ k ≤ m the answer for
    [top_n] = k is a prefix of the answer for [top_n] = m, and the one exists
    when the other does. *)
Theorem larger_top_n_extends q arts k m results :
  (0 <= k <= m)%Z →
  find_similar_articles q arts k = Ok results →
  ∃ more,
    find_similar_articles q arts m = Ok more ∧ results `prefix_of` more.
Proof.
  intros Hkm. unfold find_similar_articles. destruct arts as [|a arts].
  - intros [= <-]. by exists [].
  - destruct (score_articles q (a :: arts)) as [items|]; [|done].
    cbn [mbind result_bind].
    destruct (list_sort_reverse (similar_items items)) as [sorted|]; [|done].
    cbn [mbind result_bind]. intros [= <-]. eexists. split; [done|].
    destruct (slice_to_mono sorted k m Hkm) as [rest ->].
    rewrite fmap_app. by apply prefix_app_r.
Qed.

Lemma larger_top_n_extends_witness :
  (0 <= 1 <= 2)%Z
  ∧ ∃ more,
      find_similar_articles "abc" [abc_article 1; abc_article 2] 2 = Ok more
      ∧ [Summary (PStr "") (PStr "") (PInt 2) (1000 # 1000)] `prefix_of` more.
Proof.
  split; [lia|].
  assert (find_similar_articles "abc" [abc_article 1; abc_article 2] 1
          = Ok [Summary (PStr "") (PStr "") (PInt 2) (1000 # 1000)]) as H
    by (vm_compute; reflexivity).
  exact (larger_top_n_extends _ _ 1 2 _ ltac:(lia) H).
Defined.

(** ** Records that lack fields *)

Lemma score_articles_typed q arts :
  Forall (λ a, text_fields_ok a = true) arts →
  score_articles q arts = Ok (scored_default q <$> arts).
Proof.
  induction 1 as [|a arts Ha _ IH]; [done|].
  cbn [score_articles]. rewrite calculate_similarity_eq, Ha, IH. done.
Qed.

Lemma default_score_absent q a k :
  a !! k = None → default_score q (<[k := PStr ""]> a) = default_score q a.
Proof.
  intros Hk. unfold default_score, article_concat.
  by rewrite !field_text_insert_absent.
Qed.

Lemma typed_claps_is_int q a :
  well_typed a = true → claps_is_int (scored_default q a) = true.
Proof.
  intros [_ Hc]%andb_prop. unfold claps_is_int, scored_default, dict_get. simpl.
  by destruct (a !! "claps") as [[]|].
Qed.

(** For articles whose text fields hold text, and whose claps are an
    integer, wherever the record has them, the search does not fail and its
    results are fixed by the defaults: a text field the record lacks counts
    as the empty string in the score, the results are the summaries of the
    articles scored above 0, ranked and cut, and a summary shows the empty
    string for a url or title, and 0 for the claps, that its article
    lacks. *)
Theorem absent_fields_default q arts n :
  Forall (λ a, well_typed a = true) arts →
  ∃ results,
    score_articles q arts = Ok (scored_default q <$> arts)
    ∧ find_similar_articles q arts n = Ok results
    ∧ results = format_result <$>
                  slice_to (sort_desc (similar_items (scored_default q <$> arts))) n
    ∧ (∀ a k keywords,
         a ∈ arts → a !! k = None →
         calculate_similarity q keywords a = Ok (default_score q a)
         ∧ calculate_similarity q keywords (<[k := PStr ""]> a)
           = Ok (default_score q a))
    ∧ Forall (λ r,
        ∃ a, a ∈ arts
             ∧ (0 < default_score q a)%Q
             ∧ r_similarity_score r = py_round (default_score q a) 3
             ∧ (a !! "url" = None → r_url r = PStr "")
             ∧ (a !! "title" = None → r_title r = PStr "")
             ∧ (a !! "claps" = None → r_claps r = PInt 0)) results.
Proof.
  intros Hty.
  assert (Forall (λ a, text_fields_ok a = true) arts) as Htext.
  { eapply Forall_impl; [done|]. by intros ? [? _]%andb_prop. }
  pose proof (score_articles_typed q arts Htext) as Hscore.
  exists (format_result <$>
            slice_to (sort_desc (similar_items (scored_default q <$> arts))) n).
  split; [done|]. split; [|split; [reflexivity|split]].
  - unfold find_similar_articles. destruct arts as [|a arts].
    + by rewrite fmap_nil; cbn [similar_items List.filter sort_desc];
        rewrite slice_to_nil.
    + rewrite Hscore. cbn [mbind result_bind].
      rewrite sorting_total; [done|].
      apply forallb_forall. intros item [Hin _]%List.filter_In.
      apply list_elem_of_In, list_elem_of_fmap in Hin as (b & -> & Hb).
      apply typed_claps_is_int.
      by apply (proj1 (Forall_forall _ _) Hty).
  - intros a k keywords Ha Hk.
    apply (proj1 (Forall_forall _ _) Htext) in Ha.
    rewrite calculate_similarity_absent by done.
    by rewrite calculate_similarity_eq, Ha.
  - apply Forall_fmap, Forall_forall. intros item Hin.
    apply slice_to_sublist in Hin. rewrite sort_desc_perm in Hin.
    apply similar_items_spec in Hin as [Hin Hpos].
    apply list_elem_of_fmap in Hin as (a & -> & Ha).
    exists a. split; [done|]. split; [done|]. split; [done|].
    unfold format_result, dict_get. simpl. repeat split; by intros ->.
Qed.

(** [absent_fields_default] at a record without any field and one with a
    url and a title. *)
Lemma absent_fields_default_witness :
  Forall (λ a, well_typed a = true) [(∅ : gmap string pyval); bare_row]
  ∧ ∃ results,
      find_similar_articles "short" [(∅ : gmap string pyval); bare_row] 10
      = Ok results.
Proof.
  assert (Forall (λ a, well_typed a = true)
            [(∅ : gmap string pyval); bare_row]) as Hty
    by (repeat constructor).
  split; [exact Hty|].
  destruct (absent_fields_default "short" _ 10 Hty) as (results & _ & H & _).
  exists results. exact H.
Defined.

(** ** The loader *)

Lemma claps_value_with_claps row : claps_value (with_claps row) = claps_value row.
Proof. unfold claps_value at 1. by rewrite with_claps_lookup. Qed.

Lemma with_claps_idemp row : with_claps (with_claps row) = with_claps row.
Proof.
  unfold with_claps at 1. rewrite claps_value_with_claps.
  unfold with_claps. apply insert_insert_eq.
Qed.

Lemma with_claps_other row k : k ≠ "claps" → with_claps row !! k = row !! k.
Proof. intros Hk. unfold with_claps. by rewrite lookup_insert_ne. Qed.

(** The loader changes nothing but the claps: the articles are as many as
    the rows read and in their order, every other column of a row is in its
    article as it was, and the claps of the article are an integer. *)
Theorem loader_keeps_columns rd articles :
  load_articles (Opened rd) = Ok articles →
  length articles = length (rows_read rd)
  ∧ ∀ i row, rows_read rd !! i = Some row →
      ∃ a, articles !! i = Some a
           ∧ (∀ k, k ≠ "claps" → a !! k = row !! k)
           ∧ (∃ z, a !! "claps" = Some (PInt z))
           ∧ text_fields_ok a = text_fields_ok row.
Proof.
  rewrite load_articles_opened. intros [= <-]. split; [by rewrite length_fmap|].
  intros i row Hrow. exists (with_claps row).
  split; [by rewrite list_lookup_fmap, Hrow|].
  split; [apply with_claps_other|].
  split; [eexists; apply with_claps_lookup|].
  unfold text_fields_ok. by rewrite !with_claps_other.
Qed.

Lemma loader_keeps_columns_witness :
  load_articles (Opened (NextRow plain_row EndOfFile))
  = Ok [<["claps" := PInt 12]> plain_row]
  ∧ length [<["claps" := PInt 12]> plain_row] = length [plain_row].
Proof.
  assert (load_articles (Opened (NextRow plain_row EndOfFile))
          = Ok [<["claps" := PInt 12]> plain_row]) as H
    by (vm_compute; reflexivity).
  split; [exact H|]. exact (proj1 (loader_keeps_columns _ _ H)).
Defined.

(** Converting the claps of an article that the loader has produced changes
    nothing: an article can be loaded again as it is. *)
Theorem loaded_articles_stay f articles :
  load_articles f = Ok articles →
  Forall (λ a, convert_claps a = Ok a) articles.
Proof.
  destruct f as [|e|rd]; [by intros [= <-] | by intros [= <-] |].
  rewrite load_articles_opened. intros [= <-].
  apply Forall_fmap, Forall_forall. intros row _. simpl.
  by rewrite convert_claps_eq, with_claps_idemp.
Qed.

Lemma loaded_articles_stay_witness :
  load_articles (Opened (NextRow negative_row EndOfFile))
  = Ok [<["claps" := PInt (-5)]> negative_row]
  ∧ convert_claps (<["claps" := PInt (-5)]> negative_row)
    = Ok (<["claps" := PInt (-5)]> negative_row).
Proof.
  assert (load_articles (Opened (NextRow negative_row EndOfFile))
          = Ok [<["claps" := PInt (-5)]> negative_row]) as H
    by (vm_compute; reflexivity).
  split; [exact H|].
  exact (Forall_inv (loaded_articles_stay _ _ H)).
Defined.

Lemma digits_value_chars acc prev l z :
  digits_value acc prev l = Some z →
  Forall (λ c, is_digit c || Ascii.eqb c "_" = true) l.
Proof.
  revert acc prev. induction l as [|c l IH]; intros acc prev H; [constructor|].
  simpl in H. destruct (is_digit c) eqn:Hd.
  - constructor; [by rewrite Hd | eauto].
  - destruct (Ascii.eqb c "_" && prev) eqn:Hu; [|done].
    apply andb_prop in Hu as [Hu _]. constructor; [by rewrite Hu, orb_true_r | eauto].
Qed.

Lemma drop_spaces_keeps l c :
  c ∈ l → is_space c = true ∨ c ∈ drop_spaces l.
Proof.
  induction l as [|d l IH]; [intros Hc; inversion Hc|].
  intros Hc. simpl. destruct (is_space d) eqn:Hd; [|by right].
  apply elem_of_cons in Hc as [-> | Hc]; [by left | by apply IH].
Qed.

Lemma elem_of_rev {A} (l : list A) x : x ∈ rev l ↔ x ∈ l.
Proof. rewrite !list_elem_of_In. symmetry. apply in_rev. Qed.

Lemma strip_chars_keeps l c :
  c ∈ l → is_space c = true ∨ c ∈ strip_chars l.
Proof.
  intros Hc. unfold strip_chars.
  destruct (drop_spaces_keeps l c Hc) as [? | H1]; [by left|].
  apply elem_of_rev in H1.
  destruct (drop_spaces_keeps _ c H1) as [? | H2]; [by left|].
  right. by apply elem_of_rev.
Qed.

Lemma digit_or_underscore_int_char c :
  is_digit c || Ascii.eqb c "_" = true → int_char c = true.
Proof.
  unfold int_char. intros [-> | ->]%orb_prop; [done|].
  by rewrite !orb_true_r.
Qed.

Lemma int_of_str_chars s z :
  int_of_str s = Some z →
  Forall (λ c, int_char c = true) (strip_chars (list_ascii_of_string s)).
Proof.
  unfold int_of_str.
  destruct (strip_chars (list_ascii_of_string s)) as [|c l]; [done|].
  assert (∀ o : option Z, o = Some z →
            (o = digits_value 0 false l ∨ o = Z.opp <$> digits_value 0 false l) →
            Forall (λ c, int_char c = true) l) as Htail.
  { intros o Ho Hcase.
    assert (∃ y, digits_value 0 false l = Some y) as [y Hy].
    { destruct Hcase as [<- | ->]; [eauto|].
      destruct (digits_value 0 false l); [eauto | done]. }
    eapply Forall_impl; [exact (digits_value_chars _ _ _ _ Hy)|].
    apply digit_or_underscore_int_char. }
  assert (∀ o : option Z, o = Some z → o = digits_value 0 false (c :: l) →
            Forall (λ c, int_char c = true) (c :: l)) as Hall.
  { intros o Ho ->.
    eapply Forall_impl; [exact (digits_value_chars _ _ _ _ Ho)|].
    apply digit_or_underscore_int_char. }
  destruct c as [[] [] [] [] [] [] [] []]; intros H;
    first [ exact (Hall _ H eq_refl)
          | constructor; [reflexivity | exact (Htail _ H (or_introl eq_refl))]
          | constructor; [reflexivity | exact (Htail _ H (or_intror eq_refl))] ].
Qed.

(** A claps text with any character besides digits, underscore, sign and
    white space is stored as 0: claps written like [1.2K] or [1,200] are
    lost, not read. *)
Theorem foreign_character_zeroes_claps row s c :
  row !! "claps" = Some (PStr s) →
  c ∈ list_ascii_of_string s → int_char c = false →
  convert_claps row = Ok (<["claps" := PInt 0]> row).
Proof.
  intros Hrow Hc Hforeign. rewrite convert_claps_eq.
  unfold with_claps, claps_value. rewrite Hrow.
  destruct (int_of_str s) as [z|] eqn:Hz; [|done]. exfalso.
  apply int_of_str_chars in Hz.
  destruct (strip_chars_keeps _ _ Hc) as [Hs | Hin].
  - unfold int_char in Hforeign. by rewrite Hs, orb_true_r in Hforeign.
  - apply (proj1 (Forall_forall _ _) Hz) in Hin. congruence.
Qed.

Lemma foreign_character_zeroes_claps_witness :
  abbreviated_row !! "claps" = Some (PStr "1.2K")
  ∧ "."%char ∈ list_ascii_of_string "1.2K"
  ∧ int_char "." = false
  ∧ convert_claps abbreviated_row = Ok (<["claps" := PInt 0]> abbreviated_row).
Proof.
  assert (abbreviated_row !! "claps" = Some (PStr "1.2K")) as H1
    by (vm_compute; reflexivity).
  assert ("."%char ∈ list_ascii_of_string "1.2K") as H2
    by (simpl; apply elem_of_cons; right; apply elem_of_cons; by left).
  split; [exact H1|]. split; [exact H2|]. split; [reflexivity|].
  exact (foreign_character_zeroes_claps _ _ _ H1 H2 eq_refl).
Defined.

(** ** The endpoints *)

Lemma load_articles_total f : ∃ articles, load_articles f = Ok articles.
Proof.
  destruct f as [|e|rd]; [by exists [] | by exists [] |].
  eexists. apply load_articles_opened.
Qed.

(** Ranking the articles of the loader fails only on a text field that
    holds something else than text. *)
Lemma find_loaded_articles f articles q n :
  load_articles f = Ok articles →
  if forallb text_fields_ok articles
  then ∃ results, find_similar_articles q articles n = Ok results
  else articles ≠ [] ∧ find_similar_articles q articles n = Raise TypeError.
Proof.
  intros Hload. destruct (forallb text_fields_ok articles) eqn:Hok.
  - apply find_similar_articles_total, Forall_forall. intros a Ha.
    unfold well_typed.
    rewrite (proj1 (forallb_forall _ _) Hok a) by by apply list_elem_of_In.
    apply (proj1 (Forall_forall _ _) (loaded_claps_int _ _ Hload)) in Ha as [z ->].
    done.
  - assert (Exists (λ a, text_fields_ok a = false) articles) as Hex.
    { apply Exists_exists. clear Hload.
      induction articles as [|a arts IH]; [done|]. simpl in Hok.
      destruct (text_fields_ok a) eqn:Ha.
      - destruct (IH Hok) as (b & Hb & Hbad). exists b. split; [by right | done].
      - exists a. split; [by left | done]. }
    destruct articles as [|a arts]; [done|]. split; [done|].
    unfold find_similar_articles. by rewrite (score_articles_raises _ _ Hex).
Qed.

Lemma run_search_cases query f articles :
  load_articles f = Ok articles →
  match articles with
  | [] => run_search query f = Ok (Response 404 (NoArticles no_articles_message []))
  | _ :: _ =>
      if forallb text_fields_ok articles
      then ∃ results,
             find_similar_articles query articles 10 = Ok results
             ∧ run_search query f
               = Ok (Response 200 (SearchResults query (length articles)
                                     (length results) results))
      else run_search query f = Raise TypeError
  end.
Proof.
  intros Hload. pose proof (find_loaded_articles f articles query 10 Hload) as Hfind.
  unfold run_search. rewrite Hload. cbn [mbind result_bind].
  destruct articles as [|a arts]; [done|].
  destruct (forallb text_fields_ok (a :: arts)).
  - destruct Hfind as [results Hr]. exists results. by rewrite Hr.
  - destruct Hfind as [_ ->]. done.
Qed.

(** What [GET /search] answers.  A blank or absent query gets 400 whatever
    the file holds; otherwise an empty list of articles gets 404; otherwise
    the answer is a success that echoes the stripped query, counts all
    loaded articles, and carries at most ten results, as many as it says. *)
Theorem get_search_answers q f r :
  search_articles_get q f = Ok r →
  let query := strip (default "" q) in
  (query = "" ∧ r = Response 400 (ErrorMessage missing_q_message))
  ∨ (query ≠ "" ∧ load_articles f = Ok []
     ∧ r = Response 404 (NoArticles no_articles_message []))
  ∨ (query ≠ ""
     ∧ ∃ articles results,
         load_articles f = Ok articles ∧ articles ≠ []
         ∧ find_similar_articles query articles 10 = Ok results
         ∧ r = Response 200 (SearchResults query (length articles)
                               (length results) results)
         ∧ (length results ≤ 10)%nat
         ∧ (length results ≤ length articles)%nat).
Proof.
  unfold search_articles_get. cbn zeta. intros H. revert H.
  destruct (String.eqb_spec (strip (default "" q)) "") as [Hq | Hq].
  - intros [= <-]. by left.
  - intros H. right. destruct (load_articles_total f) as [articles Hload].
    pose proof (run_search_cases (strip (default "" q)) f articles Hload) as Hrun.
    destruct articles as [|a arts].
    + rewrite Hrun in H. injection H as <-. by left.
    + right. destruct (forallb text_fields_ok (a :: arts)).
      * destruct Hrun as (results & Hfind & Hrun). rewrite Hrun in H.
        injection H as <-. split; [done|]. exists (a :: arts), results.
        repeat split; try done.
        -- apply find_similar_articles_inv in Hfind as (items & _ & _ & ->).
           rewrite length_fmap.
           pose proof (slice_to_length (sort_desc (similar_items items)) 10
                         ltac:(lia)). lia.
        -- apply (results_length_le _ _ _ _ Hfind).
      * by rewrite Hrun in H.
Qed.

Lemma get_search_answers_witness :
  search_articles_get (Some "zzz") hello_file
  = Ok (Response 200 (SearchResults "zzz" 1 0 []))
  ∧ strip "zzz" ≠ "".
Proof.
  assert (search_articles_get (Some "zzz") hello_file
          = Ok (Response 200 (SearchResults "zzz" 1 0 []))) as H
    by (vm_compute; reflexivity).
  split; [exact H|].
  destruct (get_search_answers _ _ _ H) as [[Hq Hr] | [(Hq & _) | (Hq & _)]].
  - discriminate Hr.
  - exact Hq.
  - exact Hq.
Defined.

(** Both search handlers do the same with a query that is not blank: the
    POST handler answers what the GET handler answers, and turns the
    exception that the GET handler lets through into a 500 answer. *)
Theorem post_follows_get d raw f :
  d !! "query" = Some (PStr raw) → strip raw ≠ "" →
  search_articles (Ok (JDict d)) f =
  match search_articles_get (Some raw) f with
  | Ok r => r
  | Raise e => Response 500 (ErrorOf e)
  end.
Proof.
  intros Hd Hq.
  by rewrite (search_articles_with_query d raw f Hd Hq),
             (search_articles_get_with_query raw f Hq).
Qed.

Lemma post_follows_get_witness :
  search_articles (Ok (JDict {["query" := PStr "zzz"]})) hello_file
  = Response 200 (SearchResults "zzz" 1 0 []).
Proof.
  assert (({["query" := PStr "zzz"]} : gmap string pyval) !! "query"
          = Some (PStr "zzz")) as Hd by (vm_compute; reflexivity).
  assert (strip "zzz" ≠ "") as Hq by (by vm_compute).
  rewrite (post_follows_get _ _ hello_file Hd Hq).
  vm_compute. reflexivity.
Defined.

(** A search with a query that is not blank breaks exactly when a loaded
    article has a text field that holds something else than text, as the
    [None] of a row shorter than the header: the POST handler then answers
    500 and the GET handler raises [TypeError]. *)
Theorem search_breaks_on_untyped_field d raw f articles :
  d !! "query" = Some (PStr raw) → strip raw ≠ "" →
  load_articles f = Ok articles →
  (status (search_articles (Ok (JDict d)) f) = 500
   ↔ ∃ a, a ∈ articles ∧ text_fields_ok a = false)
  ∧ (search_articles_get (Some raw) f = Raise TypeError
     ↔ ∃ a, a ∈ articles ∧ text_fields_ok a = false)
  ∧ ((∃ a, a ∈ articles ∧ text_fields_ok a = false) →
     search_articles (Ok (JDict d)) f = Response 500 (ErrorOf TypeError)).
Proof.
  intros Hd Hq Hload.
  rewrite (search_articles_with_query d raw f Hd Hq),
          (search_articles_get_with_query raw f Hq).
  pose proof (run_search_cases (strip raw) f articles Hload) as Hrun.
  assert ((∃ a, a ∈ articles ∧ text_fields_ok a = false)
          ↔ forallb text_fields_ok articles = false) as Hbad.
  { rewrite <- not_true_iff_false, forallb_forall. split.
    - intros (a & Ha & Hf) Hall. apply list_elem_of_In, Hall in Ha. congruence.
    - intros Hnot. destruct (forallb text_fields_ok articles) eqn:E.
      + exfalso. apply Hnot. by apply forallb_forall.
      + clear -E. induction articles as [|a arts IH]; [done|]. simpl in E.
        destruct (text_fields_ok a) eqn:Ha.
        * destruct (IH E) as (b & Hb & Hbf). exists b. split; [by right | done].
        * exists a. split; [by left | done]. }
  rewrite Hbad. destruct articles as [|a arts].
  - rewrite Hrun. simpl. repeat split; done.
  - destruct (forallb text_fields_ok (a :: arts)).
    + destruct Hrun as (results & _ & ->). simpl. repeat split; done.
    + rewrite Hrun. simpl. repeat split; done.
Qed.

Lemma search_breaks_on_untyped_field_witness :
  load_articles (Opened (NextRow short_row EndOfFile))
  = Ok [<["claps" := PInt 0]> short_row]
  ∧ search_articles (Ok (JDict {["query" := PStr "zzz"]}))
      (Opened (NextRow short_row EndOfFile))
    = Response 500 (ErrorOf TypeError).
Proof.
  assert (({["query" := PStr "zzz"]} : gmap string pyval) !! "query"
          = Some (PStr "zzz")) as Hd by (vm_compute; reflexivity).
  assert (strip "zzz" ≠ "") as Hq by (by vm_compute).
  assert (load_articles (Opened (NextRow short_row EndOfFile))
          = Ok [<["claps" := PInt 0]> short_row]) as Hload
    by (vm_compute; reflexivity).
  split; [exact Hload|].
  apply (proj2 (proj2 (search_breaks_on_untyped_field _ _ _ _ Hd Hq Hload))).
  exists (<["claps" := PInt 0]> short_row).
  split; [by left | vm_compute; reflexivity].
Defined.

(** A POST body without a usable query is answered before the file is
    looked at: 500 when the body cannot be read or is a JSON value other
    than an object, 400 for [null], a false value and the empty object, 400
    again for an object without [query] or with a blank one, and 500 for a
    [query] that is not text. *)
Theorem post_body_checked_first f :
  (∀ e, search_articles (Raise e) f = Response 500 (ErrorOf e))
  ∧ (∀ data, json_truthy data = false →
       search_articles (Ok data) f
       = Response 400 (ErrorMessage "No JSON data provided"))
  ∧ json_truthy (JDict ∅) = false
  ∧ search_articles (Ok (JOther true)) f = Response 500 (ErrorOf AttributeError)
  ∧ (∀ d, d ≠ ∅ →
       d !! "query" = None
       ∨ (∃ raw, d !! "query" = Some (PStr raw) ∧ strip raw = "") →
       search_articles (Ok (JDict d)) f
       = Response 400 (ErrorMessage "Query parameter is required"))
  ∧ (∀ d v, d !! "query" = Some v → (∀ s, v ≠ PStr s) →
       search_articles (Ok (JDict d)) f = Response 500 (ErrorOf AttributeError)).
Proof.
  split; [done|]. split.
  { intros data Hd. unfold search_articles. cbn [mbind result_bind].
    by rewrite Hd. }
  split; [done|]. split; [done|]. split.
  - intros d Hne Hq. unfold search_articles. cbn [mbind result_bind json_truthy].
    rewrite (bool_decide_eq_false_2 _ Hne). cbn [negb].
    unfold query_of, dict_get.
    destruct Hq as [-> | (raw & -> & Hraw)]; cbn [default from_option id mbind result_bind].
    + done.
    + by rewrite Hraw.
  - intros d v Hv Hnot. unfold search_articles. cbn [mbind result_bind json_truthy].
    assert (d ≠ ∅) as Hne by (intros ->; by rewrite lookup_empty in Hv).
    rewrite (bool_decide_eq_false_2 _ Hne). cbn [negb].
    unfold query_of, dict_get. rewrite Hv. cbn [default from_option id].
    destruct v as [s| |]; [by destruct (Hnot s) | done | done].
Qed.

(** [GET /articles] counts what a search counts: its total is the number of
    loaded articles, it is 0 when the file does not exist, and it is the
    [total_articles] of every successful search on the same file. *)
Theorem count_agrees_with_search f :
  ∃ c articles,
    get_articles_count f = Ok c
    ∧ load_articles f = Ok articles
    ∧ count_total_articles c = length articles
    ∧ count_file_exists c = path_exists f
    ∧ (count_file_exists c = false → count_total_articles c = 0%nat)
    ∧ (∀ q query total count results,
         search_articles_get q f
         = Ok (Response 200 (SearchResults query total count results)) →
         total = count_total_articles c)
    ∧ (∀ raw, strip raw ≠ "" →
         count_total_articles c = 0%nat ↔
         search_articles_get (Some raw) f
         = Ok (Response 404 (NoArticles no_articles_message []))).
Proof.
  destruct (load_articles_total f) as [articles Hload].
  exists (ArticlesCount (length articles) CSV_FILE (path_exists f)), articles.
  split; [unfold get_articles_count; by rewrite Hload|].
  split; [done|]. split; [done|]. split; [done|]. split; [|split].
  - simpl. intros Hex. destruct f; [|done|done].
    injection Hload as <-. done.
  - intros q query total count results H. simpl.
    unfold search_articles_get in H.
    destruct (String.eqb (strip (default "" q)) ""); [done|].
    pose proof (run_search_cases (strip (default "" q)) f articles Hload) as Hrun.
    destruct articles as [|a arts]; [by rewrite Hrun in H|].
    destruct (forallb text_fields_ok (a :: arts)).
    + destruct Hrun as (res & _ & Hrun). rewrite Hrun in H. by injection H as _ <- _ _.
    + by rewrite Hrun in H.
  - intros raw Hq. simpl. rewrite (search_articles_get_with_query raw f Hq).
    pose proof (run_search_cases (strip raw) f articles Hload) as Hrun.
    destruct articles as [|a arts]; [by rewrite Hrun|].
    split; [done|]. destruct (forallb text_fields_ok (a :: arts)).
    + destruct Hrun as (res & _ & ->). done.
    + by rewrite Hrun.
Qed.
